(** * Endpoint tables: the YAML-to-Markdown converter of [script.py]

    A shallow embedding of [src/script.py] (sanitizer, location
    normaliser, row builder, section renderer and the [main] driver)
    together with the properties its specification states about it.

    Python values are modelled as follows.
    - [str] is a list of Unicode code points ([pystr]).
    - What [yaml.safe_load] returns is a [yval]: a scalar ([None], a
      [bool], an [int] or a [str]), a list, or an insertion-ordered
      [dict] whose keys are scalars (PyYAML refuses unhashable keys).
      Floats, timestamps and binary scalars are left out, and so is
      the limit of the interpreter on the digits of an [int] that is
      turned into text ([ValueError] above 4300 digits): what is proved
      about the exceptions of the program is proved for the values
      modelled and for documents that turn no number into text.
    - An exception is a [Raise] in the [result] type; what is printed
      or written is an event of the trace carried by the monad [M]. *)

From Stdlib Require Import List ZArith NArith String Ascii Bool Lia.
From Stdlib Require Import Permutation Sorted DecimalString.
Import ListNotations.

Set Implicit Arguments.
Local Open Scope N_scope.

(* ================================================================= *)
(** ** Strings *)

Module PyStr.

Definition pystr := list N.

(** An ASCII literal of the source as a list of code points. *)
Definition lit (s : string) : pystr :=
  map N_of_ascii (list_ascii_of_string s).

Fixpoint eqb (s t : pystr) : bool :=
  match s, t with
  | [], [] => true
  | c :: s', d :: t' => (c =? d) && eqb s' t'
  | _, _ => false
  end.

(** [s < t] on [str]: lexicographic on code points, a proper prefix
    being smaller. *)
Fixpoint ltb (s t : pystr) : bool :=
  match s, t with
  | _, [] => false
  | [], _ :: _ => true
  | c :: s', d :: t' => (c <? d) || ((c =? d) && ltb s' t')
  end.

Definition is_empty (s : pystr) : bool :=
  match s with [] => true | _ => false end.

(** [sep.join(parts)] *)
Fixpoint join (sep : pystr) (parts : list pystr) : pystr :=
  match parts with
  | [] => []
  | p :: rest =>
      match rest with
      | [] => p
      | _ :: _ => p ++ sep ++ join sep rest
      end
  end.

(** [s.replace(old, new)] for a pattern [old] of one code point. *)
Definition replace1 (old : N) (new : pystr) (s : pystr) : pystr :=
  flat_map (fun c => if c =? old then new else [c]) s.

(** [x in xs] and [xs.index(x)] on a list of strings. *)
Definition mem (x : pystr) (xs : list pystr) : bool :=
  existsb (eqb x) xs.

Fixpoint index (x : pystr) (xs : list pystr) : nat :=
  match xs with
  | [] => O
  | y :: xs' => if eqb x y then O else S (index x xs')
  end.

End PyStr.

Import PyStr.
Arguments lit _%_string.

(** The two places where [str] methods consult the interpreter's Unicode
    database, which is no part of the source: the full upper-case mapping
    of a code point (used by [str.upper], one code point at a time) and
    the quoted form [repr] gives a string. *)
Class Unicode := {
  to_upper_full : N -> pystr;
  repr_str : pystr -> pystr
}.

(** [s.upper()] *)
Definition str_upper {U : Unicode} (s : pystr) : pystr :=
  flat_map to_upper_full s.

(** The database restricted to ASCII, for running the model on ASCII
    documents: letters [a]-[z] are shifted, a string is quoted as is. *)
Definition ascii_upper (c : N) : pystr :=
  if (97 <=? c) && (c <=? 122) then [c - 32] else [c].

Definition ascii_repr (s : pystr) : pystr :=
  lit "'" ++ s ++ lit "'".

Definition AsciiOnly : Unicode :=
  {| to_upper_full := ascii_upper; repr_str := ascii_repr |}.

(* ================================================================= *)
(** ** Values *)

Inductive scalar :=
| SNone
| SBool (b : bool)
| SInt (z : Z)
| SStr (s : pystr).

#[local] Unset Elimination Schemes.
Inductive yval :=
| Scalar (a : scalar)
| Seq (l : list yval)
| Map (d : list (scalar * yval)).
#[local] Set Elimination Schemes.

Definition VNone : yval := Scalar SNone.
Definition VStr (s : pystr) : yval := Scalar (SStr s).
Definition VBool (b : bool) : yval := Scalar (SBool b).

(** [bool(v)] *)
Definition truthy (v : yval) : bool :=
  match v with
  | Scalar SNone => false
  | Scalar (SBool b) => b
  | Scalar (SInt z) => negb (z =? 0)%Z
  | Scalar (SStr s) => negb (is_empty s)
  | Seq l => match l with [] => false | _ => true end
  | Map d => match d with [] => false | _ => true end
  end.

(** [a or b] *)
Definition py_or (a b : yval) : yval :=
  if truthy a then a else b.

(** The number a [bool] or [int] stands for. *)
Definition num_of (a : scalar) : option Z :=
  match a with
  | SBool b => Some (Z.b2z b)
  | SInt z => Some z
  | _ => None
  end.

(** [a == b] on scalars, which is also when two keys of a [dict] are
    the same key ([True == 1]). *)
Definition py_eqb (a b : scalar) : bool :=
  match a, b with
  | SNone, SNone => true
  | SStr s, SStr t => PyStr.eqb s t
  | _, _ =>
      match num_of a, num_of b with
      | Some x, Some y => (x =? y)%Z
      | _, _ => false
      end
  end.

(** [a < b] where Python defines it (two numbers, two strings); the
    other pairs raise [TypeError], see [lt_defined]. *)
Definition scalar_ltb (a b : scalar) : bool :=
  match a, b with
  | SStr s, SStr t => PyStr.ltb s t
  | _, _ =>
      match num_of a, num_of b with
      | Some x, Some y => (x <? y)%Z
      | _, _ => false
      end
  end.

Definition lt_defined (a b : scalar) : bool :=
  match a, b with
  | SStr _, SStr _ => true
  | _, _ =>
      match num_of a, num_of b with
      | Some _, Some _ => true
      | _, _ => false
      end
  end.

(** [str(a)] and [repr(a)] on a scalar.  The text of an [int] is its
    decimal numeral whatever its size: the refusal of the interpreter
    to print more than 4300 digits is not modelled. *)
Definition str_scalar (a : scalar) : pystr :=
  match a with
  | SNone => lit "None"
  | SBool true => lit "True"
  | SBool false => lit "False"
  | SInt z => lit (NilZero.string_of_int (Z.to_int z))
  | SStr s => s
  end.

Definition repr_scalar {U : Unicode} (a : scalar) : pystr :=
  match a with
  | SStr s => repr_str s
  | _ => str_scalar a
  end.

(** [repr(v)] and [str(v)]. *)
Fixpoint py_repr {U : Unicode} (v : yval) : pystr :=
  match v with
  | Scalar a => repr_scalar a
  | Seq l => lit "[" ++ join (lit ", ") (map py_repr l) ++ lit "]"
  | Map d =>
      lit "{"
      ++ join (lit ", ")
           (map (fun kv => let '(k, x) := kv in
                           repr_scalar k ++ lit ": " ++ py_repr x) d)
      ++ lit "}"
  end.

Definition py_str {U : Unicode} (v : yval) : pystr :=
  match v with
  | Scalar a => str_scalar a
  | _ => py_repr v
  end.

(** *** Dictionaries: association lists in insertion order *)

Definition dict (V : Type) := list (scalar * V).

Fixpoint dict_find {V} (d : dict V) (k : scalar) : option V :=
  match d with
  | [] => None
  | (k', v) :: d' => if py_eqb k' k then Some v else dict_find d' k
  end.

(** [d.get(k, default)] and [d.get(k)] *)
Definition dict_get_default (d : dict yval) (k : scalar) (default : yval) : yval :=
  match dict_find d k with
  | Some v => v
  | None => default
  end.

Definition dict_get (d : dict yval) (k : scalar) : yval :=
  dict_get_default d k VNone.

Definition dict_keys {V} (d : dict V) : list scalar := map fst d.

(** [d.setdefault(k, []).append(x)] on a dictionary of lists. *)
Fixpoint setdefault_append {V} (d : dict (list V)) (k : scalar) (x : V)
  : dict (list V) :=
  match d with
  | [] => [(k, [x])]
  | (k', xs) :: d' =>
      if py_eqb k' k then (k', xs ++ [x]) :: d'
      else (k', xs) :: setdefault_append d' k x
  end.

(** A key must be hashable: a list or a dict is not. *)
Definition hashable (v : yval) : option scalar :=
  match v with
  | Scalar a => Some a
  | _ => None
  end.

Definition is_dict (v : yval) : bool :=
  match v with Map _ => true | _ => false end.

(* ================================================================= *)
(** ** Exceptions and effects *)

Inductive exn :=
| TypeError        (* unhashable key, [<] between unordered types *)
| AttributeError   (* [.replace] on something that is no [str] *)
| ValueError       (* raised by [parse_yaml] *)
| YAMLError        (* raised by [yaml.safe_load] *)
| KeyError         (* [d[k]] on a missing key *)
| OSError.         (* raised by reading or writing *)

Inductive result (A : Type) :=
| Ok (a : A)
| Raise (e : exn).
Arguments Raise {A} e.

(** The lines the program prints on standard error. *)
Inductive diag :=
| WarnMethodsNotMapping (path : scalar)
    (* Warning: skipping path ... because 'methods' is not a mapping *)
| WarnMethodMetaNotMapping (path : scalar) (method : pystr)
    (* Warning: skipping ... because method metadata is not a mapping *)
| FailedToRead (input : pystr)
| FailedToParse
| FailedToWrite (output : pystr).

Inductive event :=
| EStderr (d : diag)
| EWrite (dest : pystr) (text : pystr).
    (* the program sends [text] to [dest]; whether it arrives is the
       answer of the world, see [write_result] *)

(** A computation: the events it emitted, and its value or the
    exception that ended it. *)
Definition M (A : Type) : Type := list event * result A.

Definition ret {A} (a : A) : M A := ([], Ok a).
Definition raise {A} (e : exn) : M A := ([], Raise e).
Definition emit (ev : event) : M unit := ([ev], Ok tt).

Definition bind {A B} (m : M A) (f : A -> M B) : M B :=
  match m with
  | (tr, Ok a) => let '(tr', r) := f a in (tr ++ tr', r)
  | (tr, Raise e) => (tr, Raise e)
  end.

Definition lift {A} (r : result A) : M A := ([], r).

(** [try: m  except Exception as exc: h exc] *)
Definition catch {A} (m : M A) (h : exn -> M A) : M A :=
  match m with
  | (tr, Ok a) => (tr, Ok a)
  | (tr, Raise e) => let '(tr', r) := h e in (tr ++ tr', r)
  end.

(** The same sequencing for code that prints nothing. *)
Definition bind_r {A B} (r : result A) (f : A -> result B) : result B :=
  match r with
  | Ok a => f a
  | Raise e => Raise e
  end.

Declare Scope py_scope.
Delimit Scope py_scope with py.
Notation "x <- m ;; k" := (bind m (fun x => k))
  (at level 61, m at next level, right associativity) : py_scope.
Notation "m ;;; k" := (bind m (fun _ => k))
  (at level 61, right associativity) : py_scope.

Notation "x <-r m ;; k" := (bind_r m (fun x => k))
  (at level 61, m at next level, right associativity) : py_scope.
Local Open Scope py_scope.

(** [for x in items: s = body(s, x)] *)
Fixpoint for_each {A S} (body : S -> A -> M S) (items : list A) (s : S) : M S :=
  match items with
  | [] => ret s
  | x :: rest => bind (body s x) (for_each body rest)
  end.

Fixpoint for_each_r {A S} (body : S -> A -> result S) (items : list A) (s : S)
  : result S :=
  match items with
  | [] => Ok s
  | x :: rest => bind_r (body s x) (for_each_r body rest)
  end.

Definition events {A} (m : M A) : list event := fst m.
Definition value {A} (m : M A) : result A := snd m.

(** [sorted(l, key=key)]: stable, by [<] on the keys alone.  It raises
    [TypeError] as soon as it compares two keys that [<] does not
    order, which happens for some pair whenever the list holds one. *)
Section Sorted.
Variables (A K : Type) (key : A -> K).
Variables (lt defined : K -> K -> bool).

Fixpoint insert (x : A) (l : list A) : list A :=
  match l with
  | [] => [x]
  | y :: l' => if lt (key y) (key x) then y :: insert x l' else x :: l
  end.

Definition stable_sort (l : list A) : list A := fold_right insert [] l.

Fixpoint all_pairs (l : list A) : bool :=
  match l with
  | [] => true
  | x :: l' => forallb (fun y => defined (key x) (key y)) l' && all_pairs l'
  end.

Definition py_sorted (l : list A) : result (list A) :=
  if all_pairs l then Ok (stable_sort l) else Raise TypeError.
End Sorted.

(* ================================================================= *)
(** ** The program *)

Definition METHOD_ORDER : list pystr :=
  [lit "GET"; lit "POST"; lit "PUT"; lit "DELETE"; lit "PATCH"; lit "HEAD";
   lit "OPTIONS"].

Definition bool_to_yesno (val : yval) : pystr :=
  if truthy val then lit "Yes" else lit "No".

Definition backtick : N := 96.
Definition prime : N := 8242.      (* U+2032 *)

(** [value.replace("`", "\u2032")] on a [str]. *)
Definition replace_backticks (value : pystr) : pystr :=
  replace1 backtick [prime] value.

Definition sanitize_code_span (value : yval) : result pystr :=
  match value with
  | Scalar SNone => Ok []
  | Scalar (SStr s) => Ok (replace_backticks s)
  | _ => Raise AttributeError
  end.

(** [sanitize_code_span(str(p))]: the argument is a [str], the call
    cannot raise. *)
Definition sanitize_str {U : Unicode} (p : yval) : pystr :=
  replace_backticks (py_str p).

Definition normalize_locations {U : Unicode} (loc : yval) : option pystr :=
  match loc with
  | Scalar SNone => None
  | Scalar (SStr s) => Some (replace_backticks s)
  | Seq l =>
      let parts :=
        fold_left
          (fun parts p =>
             match p with
             | Scalar SNone => parts
             | _ => parts ++ [sanitize_str p]
             end) l [] in
      match parts with
      | [] => None
      | _ :: _ => Some (join (lit ", ") parts)
      end
  | _ => Some (sanitize_str loc)
  end.

Definition method_sort_key {U : Unicode} (method : pystr) : nat * pystr :=
  let m := str_upper method in
  if mem m METHOD_ORDER then (PyStr.index m METHOD_ORDER, [])
  else (List.length METHOD_ORDER, m).

(** [yaml.safe_load] is the parser of PyYAML: a function from the text
    to a value or an exception. *)
Definition parse_yaml (safe_load : pystr -> result yval) (stream : pystr)
  : result (dict yval) :=
  data <-r safe_load stream ;;
  match data with
  | Map d => Ok d
  | _ => Raise ValueError
  end.

Record Row := {
  path : scalar;
  method : pystr;
  region_aware : bool;
  absolute : bool;
  owner : yval;
  endpoint_name : yval;
  backend_class : yval;
  locations : option pystr;
  notes : yval
}.

Definition Sections := dict (list Row).

(** A string key of the document. *)
Definition K (s : string) : scalar := SStr (lit s).

Section BuildRows.
Context {U : Unicode}.

(** What a path hands down to the loop over its methods. *)
Record PathInfo := {
  pi_path : scalar;
  pi_section_name : yval;
  pi_absolute : bool;
  pi_owner : yval;
  pi_endpoint_name : yval;
  pi_backend_class : yval
}.

(** The row of lines 119-134. *)
Definition make_row (p : PathInfo) (method : pystr) (method_meta : dict yval)
  : Row :=
  let region_aware :=
    truthy (dict_get_default method_meta (K "region_aware") (VBool false)) in
  let notes := py_or (dict_get method_meta (K "notes")) (VStr []) in
  let loc := dict_get method_meta (K "locations") in
  let locations_joined := normalize_locations loc in
  {| path := pi_path p;
     method := method;
     region_aware := region_aware;
     absolute := pi_absolute p;
     owner := pi_owner p;
     endpoint_name := pi_endpoint_name p;
     backend_class := pi_backend_class p;
     locations := locations_joined;
     notes := notes |}.

(** The body of [for method_raw, method_meta in methods.items()]. *)
Definition build_method (p : PathInfo) (sections : Sections)
    (item : scalar * yval) : M Sections :=
  let '(method_raw, method_meta) := item in
  match method_raw with
  | SNone => ret sections
  | _ =>
      let method := str_upper (str_scalar method_raw) in
      match method_meta with
      | Map mm =>
          let row := make_row p method mm in
          match hashable (pi_section_name p) with
          | Some k => ret (setdefault_append sections k row)
          | None => raise TypeError
          end
      | _ =>
          emit (EStderr (WarnMethodMetaNotMapping (pi_path p) method)) ;;;
          ret sections
      end
  end.

(** Lines 82-99: the fields of a path and its [methods] value. *)
Definition path_info (path : scalar) (meta : yval) : PathInfo * yval :=
  let endpoint_section :=
    match meta with
    | Map d => dict_get d (K "section")
    | _ => VNone
    end in
  let section_name := py_or endpoint_section (VStr (lit "Uncategorized")) in
  match meta with
  | Map d =>
      ({| pi_path := path;
          pi_section_name := section_name;
          pi_absolute :=
            truthy (dict_get_default d (K "absolute") (VBool false));
          pi_owner := dict_get d (K "owner");
          pi_endpoint_name := dict_get d (K "name");
          pi_backend_class := dict_get d (K "class") |},
       py_or (dict_get d (K "methods")) (Map []))
  | _ =>
      ({| pi_path := path;
          pi_section_name := section_name;
          pi_absolute := false;
          pi_owner := VNone;
          pi_endpoint_name := VNone;
          pi_backend_class := VNone |},
       Map [])
  end.

(** The body of [for path, meta in yaml_map.items()]. *)
Definition build_path (sections : Sections) (item : scalar * yval)
  : M Sections :=
  let '(path, meta) := item in
  let '(p, methods) := path_info path meta in
  match methods with
  | Map ms => for_each (build_method p) ms sections
  | _ =>
      emit (EStderr (WarnMethodsNotMapping path)) ;;;
      ret sections
  end.

Definition build_rows (yaml_map : dict yval) : M Sections :=
  for_each build_path yaml_map [].

End BuildRows.

(** *** Rendering *)

(** The sort key of line 143 and Python's order on such tuples: the
    first components that differ under [==] decide, by [<]. *)
Definition SortKey : Type := scalar * (nat * pystr).

Definition row_key {U : Unicode} (r : Row) : SortKey :=
  (path r, method_sort_key (method r)).

Definition key_ltb (k1 k2 : SortKey) : bool :=
  let '(p1, (i1, m1)) := k1 in
  let '(p2, (i2, m2)) := k2 in
  if py_eqb p1 p2 then
    if Nat.eqb i1 i2 then PyStr.ltb m1 m2 else Nat.ltb i1 i2
  else scalar_ltb p1 p2.

Definition key_lt_defined (k1 k2 : SortKey) : bool :=
  py_eqb (fst k1) (fst k2) || lt_defined (fst k1) (fst k2).

Definition sort_rows {U : Unicode} (rows : list Row) : result (list Row) :=
  py_sorted row_key key_ltb key_lt_defined rows.

Definition newline : pystr := [10].

Definition header_line : pystr :=
  lit "| Path | Method | Region-aware | Absolute | Owner | Endpoint Name | Class (in backend) | Locations used (in CLI) | Notes |".

Definition delimiter_line : pystr :=
  lit "| ---- | ------ | ------------ | -------- | ----- | ------------- | ------------------- | ----------------------- | ----- |".

(** [f"`{s}`"] *)
Definition code_span (s : pystr) : pystr := [backtick] ++ s ++ [backtick].

(** [f"`{sanitize_code_span(v)}`" if v else ""] *)
Definition optional_cell (v : yval) : result pystr :=
  if truthy v then
    s <-r sanitize_code_span v ;; Ok (code_span s)
  else Ok [].

(** The body of [for r in rows_sorted], lines 156-175. *)
Definition render_row {U : Unicode} (r : Row) : result pystr :=
  p <-r sanitize_code_span (Scalar (path r)) ;;
  let path_cell := code_span p in
  m <-r sanitize_code_span (VStr (method r)) ;;
  let method_cell := code_span m in
  let region_cell := bool_to_yesno (VBool (region_aware r)) in
  let absolute_cell := bool_to_yesno (VBool (absolute r)) in
  owner_cell <-r optional_cell (owner r) ;;
  endpoint_cell <-r optional_cell (endpoint_name r) ;;
  class_cell <-r optional_cell (backend_class r) ;;
  let locations_raw := locations r in
  let locations_cell :=
    match locations_raw with
    | Some l => if is_empty l then [] else code_span l
    | None => []
    end in
  let notes_cell := py_or (notes r) (VStr []) in
  Ok (lit "| " ++ path_cell ++ lit " | " ++ method_cell ++ lit " | "
      ++ region_cell ++ lit " | " ++ absolute_cell ++ lit " | "
      ++ owner_cell ++ lit " | " ++ endpoint_cell ++ lit " | "
      ++ class_cell ++ lit " | " ++ locations_cell ++ lit " | "
      ++ py_str notes_cell ++ lit " |").

Definition render_section {U : Unicode} (section : scalar) (rows : list Row)
  : result pystr :=
  rows_sorted <-r sort_rows rows ;;
  let lines :=
    [lit "### " ++ str_scalar section; []; header_line; delimiter_line] in
  lines <-r for_each_r
              (fun lines r => line <-r render_row r ;; Ok (lines ++ [line]))
              rows_sorted lines ;;
  Ok (join newline lines).

(** *** The driver *)

Record Args := {
  input : pystr;
  output : pystr;
  no_sort : bool
}.

(** What the run finds outside: the text on standard input and in the
    files, the YAML parser, and whether a text can be written. *)
Record World := {
  stdin_read : result pystr;
  file_read : pystr -> result pystr;
  safe_load : pystr -> result yval;
  stdout_write : pystr -> result unit;
  file_write : pystr -> pystr -> result unit
}.

Section Main.
Context {U : Unicode}.

(** Lines 201-206. *)
Definition read_input (w : World) (args : Args) : result pystr :=
  if PyStr.eqb (input args) (lit "-") then stdin_read w
  else file_read w (input args).

(** Lines 219-222. *)
Definition section_order (args : Args) (sections : Sections)
  : result (list scalar) :=
  let section_names := dict_keys sections in
  if negb (no_sort args) then
    py_sorted (fun k => k) scalar_ltb lt_defined section_names
  else Ok section_names.

(** [sections[sec]] *)
Definition getitem (sections : Sections) (sec : scalar) : result (list Row) :=
  match dict_find sections sec with
  | Some rows => Ok rows
  | None => Raise KeyError
  end.

(** Lines 224-231: the state of the loop is [(out_parts, first)]. *)
Definition render_step (sections : Sections) (st : list pystr * bool)
    (sec : scalar) : result (list pystr * bool) :=
  let '(out_parts, first) := st in
  let out_parts := if negb first then out_parts ++ [[]] else out_parts in
  rows <-r getitem sections sec ;;
  sec_md <-r render_section sec rows ;;
  Ok (out_parts ++ [sec_md], false).

Definition render_parts (sections : Sections) (section_names : list scalar)
  : result (list pystr) :=
  st <-r for_each_r (render_step sections) section_names ([], true) ;;
  Ok (fst st).

(** Line 233. *)
Definition output_text (out_parts : list pystr) : pystr :=
  join (newline ++ newline) out_parts ++ newline.

(** Lines 236-240: what the destination answers, and the call. *)
Definition write_result (w : World) (args : Args) (text : pystr)
  : result unit :=
  if PyStr.eqb (output args) (lit "-") then stdout_write w text
  else file_write w (output args) text.

Definition write_output (w : World) (args : Args) (text : pystr) : M unit :=
  emit (EWrite (output args) text) ;;; lift (write_result w args text).

(** Lines 219-245: what [main] does with the sections. *)
Definition render_and_write (w : World) (args : Args) (sections : Sections)
  : M Z :=
  section_names <- lift (section_order args sections) ;;
  out_parts <- lift (render_parts sections section_names) ;;
  catch (write_output w args (output_text out_parts) ;;; ret 0%Z)
        (fun _ => emit (EStderr (FailedToWrite (output args))) ;;; ret 4%Z).

(** [main], from the parsed arguments on; the value is the exit status
    it returns, an exception that leaves it is not caught anywhere. *)
Definition main (w : World) (args : Args) : M Z :=
  match read_input w args with
  | Raise _ => emit (EStderr (FailedToRead (input args))) ;;; ret 2%Z
  | Ok stream =>
      match parse_yaml (safe_load w) stream with
      | Raise _ => emit (EStderr FailedToParse) ;;; ret 3%Z
      | Ok yaml_map =>
          sections <- build_rows yaml_map ;;
          render_and_write w args sections
      end
  end.

(** The status of the process: [raise SystemExit(main())], and 1 when
    an exception ends the interpreter. *)
Definition exit_status (r : result Z) : Z :=
  match r with
  | Ok code => code
  | Raise _ => 1%Z
  end.

(** The texts handed to the output, in order. *)
Definition written (tr : list event) : list pystr :=
  flat_map (fun ev => match ev with EWrite _ t => [t] | _ => [] end) tr.

Definition stderr (tr : list event) : list diag :=
  flat_map (fun ev => match ev with EStderr d => [d] | _ => [] end) tr.

End Main.

(* ================================================================= *)
(** ** Notions of the specification *)

(** A table line made of cells, and the nine column labels. *)
Definition table_row (cells : list pystr) : pystr :=
  lit "| " ++ join (lit " | ") cells ++ lit " |".

Definition column_labels : list pystr :=
  [lit "Path"; lit "Method"; lit "Region-aware"; lit "Absolute"; lit "Owner";
   lit "Endpoint Name"; lit "Class (in backend)";
   lit "Locations used (in CLI)"; lit "Notes"].

(** One code point sanitized: a backtick becomes U+2032. *)
Definition sanitize_char (c : N) : N :=
  if c =? backtick then prime else c.

Definition is_none (v : yval) : bool :=
  match v with Scalar SNone => true | _ => false end.

Definition is_str (a : scalar) : bool :=
  match a with SStr _ => true | _ => false end.

(** A field that holds a string or nothing. *)
Definition str_or_none (v : yval) : bool :=
  match v with
  | Scalar SNone | Scalar (SStr _) => true
  | _ => false
  end.

(** The input kinds [normalize_locations] has no case of its own for. *)
Definition other_type (v : yval) : bool :=
  match v with
  | Scalar (SBool _) | Scalar (SInt _) | Map _ => true
  | _ => false
  end.

(** Absent when there is no part, the parts joined otherwise. *)
Definition joined_or_absent (parts : list pystr) : option pystr :=
  if Nat.eqb (List.length parts) 0 then None
  else Some (join (lit ", ") parts).

(** *** Concrete runs *)

(** A world where standard input is read, the parser answers [v] and
    every write succeeds; the arguments [--input - --output -]. *)
Definition world_of (v : yval) : World :=
  {| stdin_read := Ok [];
     file_read := fun _ => Raise OSError;
     safe_load := fun _ => Ok v;
     stdout_write := fun _ => Ok tt;
     file_write := fun _ _ => Ok tt |}.

Definition stdio (sorted : bool) : Args :=
  {| input := lit "-"; output := lit "-"; no_sort := negb sorted |}.

(** [f] on every element, stopping at the first exception. *)
Fixpoint map_r {A B} (f : A -> result B) (l : list A) : result (list B) :=
  match l with
  | [] => Ok []
  | x :: l' => y <-r f x ;; ys <-r map_r f l' ;; Ok (y :: ys)
  end.

(** [sep] between every two neighbours of a list. *)
Fixpoint intersperse {A} (sep : A) (l : list A) : list A :=
  match l with
  | [] => []
  | x :: l' =>
      match l' with
      | [] => [x]
      | _ :: _ => x :: sep :: intersperse sep l'
      end
  end.

(** The Markdown of the section called [sec]. *)
Definition render_named {U : Unicode} (sections : Sections) (sec : scalar)
  : result pystr :=
  rows <-r getitem sections sec ;; render_section sec rows.

(** A document with one path in section [B] and one in section [A]. *)
Definition two_sections_doc : dict yval :=
  [(K "/b", Map [(K "section", VStr (lit "B"));
                 (K "methods", Map [(K "get", Map [])])]);
   (K "/a", Map [(K "section", VStr (lit "A"));
                 (K "methods", Map [(K "get", Map [])])])].

Definition plain_row (p m : string) : Row :=
  {| path := K p; method := lit m; region_aware := false; absolute := false;
     owner := VNone; endpoint_name := VNone; backend_class := VNone;
     locations := None; notes := VStr [] |}.

(** *** Orders *)

(** A decidable strict total order. *)
Record StrictTotal {K : Type} (lt : K -> K -> bool) : Prop := {
  st_irrefl : forall a, lt a a = false;
  st_trans : forall a b c, lt a b = true -> lt b c = true -> lt a c = true;
  st_total : forall a b, lt a b = false -> lt b a = false -> a = b
}.

(** The lexicographic order of a pair, as Python compares tuples. *)
Definition lex_ltb {A B} (eqA ltA : A -> A -> bool) (ltB : B -> B -> bool)
    (x y : A * B) : bool :=
  if eqA (fst x) (fst y) then ltB (snd x) (snd y) else ltA (fst x) (fst y).

(** No later element of a list is smaller than an earlier one, and two
    elements tie when neither key is smaller than the other. *)
Definition ordered {A K} (key : A -> K) (lt : K -> K -> bool)
  : list A -> Prop :=
  StronglySorted (fun a b => lt (key b) (key a) = false).

Definition tie {A K} (key : A -> K) (lt : K -> K -> bool) (r x : A) : bool :=
  negb (lt (key r) (key x)) && negb (lt (key x) (key r)).

(** *** The row order in the words of the specification *)

Section RowOrder.
Context {U : Unicode}.

(** The position of a method in the priority list, whatever its
    case; none for a method outside the list. *)
Definition priority (m : pystr) : option nat :=
  if mem (str_upper m) METHOD_ORDER
  then Some (PyStr.index (str_upper m) METHOD_ORDER)
  else None.

(** Listed methods by position, then the others, by their upper-case
    form. *)
Definition method_before (m1 m2 : pystr) : bool :=
  match priority m1, priority m2 with
  | Some i, Some j => Nat.ltb i j
  | Some _, None => true
  | None, Some _ => false
  | None, None => PyStr.ltb (str_upper m1) (str_upper m2)
  end.

(** First the path, then the method. *)
Definition row_before (a b : Row) : bool :=
  match path a, path b with
  | SStr p, SStr q =>
      if PyStr.eqb p q then method_before (method a) (method b)
      else PyStr.ltb p q
  | _, _ => false
  end.

Definition same_rank (a b : Row) : bool :=
  negb (row_before a b) && negb (row_before b a).
End RowOrder.

Definition string_path (r : Row) : Prop := is_str (path r) = true.

(** The order on the sort keys of rows whose path is a string. *)
Definition str_key_ltb : pystr * (nat * pystr) -> pystr * (nat * pystr) -> bool :=
  lex_ltb PyStr.eqb PyStr.ltb (lex_ltb Nat.eqb Nat.ltb PyStr.ltb).

Definition path_str (r : Row) : pystr :=
  match path r with SStr p => p | _ => [] end.

Definition str_key {U : Unicode} (r : Row) : pystr * (nat * pystr) :=
  (path_str r, method_sort_key (method r)).

(** *** Rows and sections in the words of the specification *)

Section Pairs.
Context {U : Unicode}.

(** The section a path resolves to: its [section] value, or the
    default. *)
Definition resolved_section (meta : yval) : yval :=
  py_or (match meta with
         | Map d => dict_get d (K "section")
         | _ => VNone
         end)
        (VStr (lit "Uncategorized")).

(** The [methods] of a path, when the field is a mapping. *)
Definition methods_mapping (meta : yval) : option (dict yval) :=
  match meta with
  | Map d =>
      match dict_find d (K "methods") with
      | Some (Map ms) => Some ms
      | _ => None
      end
  | _ => None
  end.

(** The row of a method of a path. *)
Definition row_of (path : scalar) (meta : yval) (method_raw : scalar)
    (method_meta : dict yval) : Row :=
  make_row (fst (path_info path meta))
           (str_upper (str_scalar method_raw)) method_meta.

(** One entry for every (path, method) pair whose path has a mapping
    as [methods] and whose method has a mapping as metadata: the
    section of the path and the row of the pair, in document order. *)
Definition pairs_of_path (item : scalar * yval) : list (yval * Row) :=
  let '(path, meta) := item in
  match methods_mapping meta with
  | Some ms =>
      flat_map
        (fun m : scalar * yval =>
           match snd m with
           | Map mm => [(resolved_section meta, row_of path meta (fst m) mm)]
           | _ => []
           end) ms
  | None => []
  end.

Definition document_pairs (doc : dict yval) : list (yval * Row) :=
  flat_map pairs_of_path doc.

(** A valid document: every path resolves to a scalar as section
    name, and no method is keyed by null. *)
Definition valid_path (item : scalar * yval) : bool :=
  match resolved_section (snd item) with
  | Scalar _ => true
  | _ => false
  end
  && match methods_mapping (snd item) with
     | Some ms => forallb (fun m => negb (py_eqb (fst m) SNone)) ms
     | None => true
     end.

Definition valid_document (doc : dict yval) : bool := forallb valid_path doc.
End Pairs.

(** The rows filed under the key [k], and the pairs whose section is
    that key. *)
Definition rows_in (sections : Sections) (k : scalar) : list Row :=
  match dict_find sections k with
  | Some rows => rows
  | None => []
  end.

Definition in_section (k : scalar) (sr : yval * Row) : bool :=
  match fst sr with
  | Scalar a => py_eqb a k
  | _ => false
  end.

(** The keys of a dictionary are pairwise different. *)
Definition distinct_keys {V} (d : dict V) : Prop :=
  ForallOrdPairs (fun a b => py_eqb a b = false) (dict_keys d).

Definition row_count (sections : Sections) : nat :=
  list_sum (map (fun kv => List.length (snd kv)) sections).

(** The keys of a list in the order of their first occurrence. *)
Fixpoint first_seen (l : list scalar) : list scalar :=
  match l with
  | [] => []
  | k :: l' => k :: filter (fun k' => negb (py_eqb k k')) (first_seen l')
  end.

(** [k] is none of the keys [seen]. *)
Definition unseen (seen : list scalar) (k : scalar) : bool :=
  negb (existsb (fun k0 => py_eqb k0 k) seen).

Definition section_key (v : yval) : scalar :=
  match v with
  | Scalar a => a
  | _ => SNone
  end.

(** Filing tagged rows one after the other. *)
Definition group (tagged : list (scalar * Row)) (acc : Sections) : Sections :=
  fold_left (fun d sr => setdefault_append d (fst sr) (snd sr)) tagged acc.

Definition keyed (pairs : list (yval * Row)) : list (scalar * Row) :=
  map (fun sr => (section_key (fst sr), snd sr)) pairs.

(** The section names of the rows of a document, in document order. *)
Definition section_names_of {U : Unicode} (doc : dict yval) : list scalar :=
  map (fun sr => section_key (fst sr)) (document_pairs doc).

Definition str_scalar_dom (a : scalar) : Prop := is_str a = true.

(** The world [w] with a parser that answers [v]. *)
Definition load_instead (w : World) (v : yval) : World :=
  {| stdin_read := stdin_read w;
     file_read := file_read w;
     safe_load := fun _ => Ok v;
     stdout_write := stdout_write w;
     file_write := file_write w |}.

(** *** The cells of a data row in the words of the specification *)

Definition yes_no (b : bool) : pystr :=
  if b then lit "Yes" else lit "No".

(** Inline code around the sanitized text. *)
Definition wrapped (s : pystr) : pystr :=
  code_span (map sanitize_char s).

(** A field wrapped when it is a non-empty string, else an empty cell. *)
Definition wrapped_if_nonempty (v : yval) : pystr :=
  match v with
  | Scalar (SStr (c :: s)) => wrapped (c :: s)
  | _ => []
  end.

(** The locations, sanitized already, wrapped when present and not
    empty. *)
Definition locations_cell (l : option pystr) : pystr :=
  match l with
  | Some (c :: s) => code_span (c :: s)
  | _ => []
  end.

(** The notes as they are. *)
Definition notes_cell (v : yval) : pystr :=
  match v with
  | Scalar (SStr s) => s
  | _ => []
  end.

Definition cells (r : Row) : list pystr :=
  [wrapped (path_str r); wrapped (method r);
   yes_no (region_aware r); yes_no (absolute r);
   wrapped_if_nonempty (owner r); wrapped_if_nonempty (endpoint_name r);
   wrapped_if_nonempty (backend_class r);
   locations_cell (locations r); notes_cell (notes r)].

(** A row as the data model has it: the path and the notes are
    strings, the owner, the endpoint name and the class are strings or
    null. *)
Definition well_typed (r : Row) : Prop :=
  is_str (path r) = true
  /\ str_or_none (owner r) = true
  /\ str_or_none (endpoint_name r) = true
  /\ str_or_none (backend_class r) = true
  /\ (exists s, notes r = VStr s).

(** A row whose locations are present and empty. *)
Definition empty_locations_row : Row :=
  {| path := K "/a"; method := lit "GET"; region_aware := false;
     absolute := false; owner := VNone; endpoint_name := VNone;
     backend_class := VNone; locations := Some []; notes := VStr [] |}.

(** A document of four paths: two with rows, in the sections
    [Uncategorized] and [Zed], one whose [methods] is an empty sequence
    and one whose [methods] is a string. *)
Definition sample_doc : dict yval :=
  [(K "/a", Map [(K "methods",
                  Map [(K "post", Map [(K "notes", VStr (lit "x"))]);
                       (K "get", Map [])])]);
   (K "/b", Map [(K "section", VStr (lit "Zed"));
                 (K "methods",
                  Map [(K "put",
                        Map [(K "locations",
                              Seq [VStr (lit "a`b"); VStr (lit "c")])])])]);
   (K "/c", Map [(K "section", VStr (lit "Alpha"));
                 (K "methods", Map [(K "trace", Map [])])]);
   (K "/d", Map [(K "methods", VStr (lit "oops"))])].

Definition sample_rows : list Row :=
  [plain_row "/b" "GET"; plain_row "/a" "TRACE"; plain_row "/a" "POST";
   plain_row "/a" "GET"].

(** A table that begins with the heading of the section [k]. *)
Definition headed (k : scalar) (md : pystr) : Prop :=
  exists rest, md = lit "### " ++ str_scalar k ++ rest.

(** The separator [main] ends up putting between two tables. *)
Definition table_separator : pystr := newline ++ newline ++ newline ++ newline.

(* ================================================================= *)
(** ** Further notions used by the properties of the code *)

(** A sequence that holds nothing but nulls. *)
Definition all_null (l : list yval) : bool := forallb is_none l.

Definition non_null (p : yval) : bool := negb (is_none p).

(** Two path metadata mappings that differ in their [methods] at most. *)
Definition same_but_methods (d d' : dict yval) : Prop :=
  forall k, py_eqb k (K "methods") = false -> dict_find d' k = dict_find d k.

(** Metadata from which the loop over the methods gets nothing to run
    over: no mapping, or a [methods] that is absent or false in a
    condition (null, false, zero, empty). *)
Definition no_methods (meta : yval) : bool :=
  match meta with
  | Map d => negb (truthy (dict_get d (K "methods")))
  | _ => true
  end.

(** A method entry that makes a row: its key is not null and its
    metadata is a mapping. *)
Definition makes_row (m : scalar * yval) : bool :=
  negb (py_eqb (fst m) SNone) && is_dict (snd m).

Definition yields_row (meta : yval) : bool :=
  match methods_mapping meta with
  | Some ms => existsb makes_row ms
  | None => false
  end.

(** The value of a computation that raises [e] unless [r] has raised
    before. *)
Definition then_raise {A B} (r : result A) (e : exn) : result B :=
  match r with
  | Ok _ => Raise e
  | Raise e0 => Raise e0
  end.

(** Documents for the properties of [build_rows]. *)
Definition meta_with_methods (ms : dict yval) : dict yval :=
  [(K "section", VStr (lit "S")); (K "methods", Map ms)].

Definition get_method : scalar * yval := (K "get", Map []).

(** What every row built from a document [doc] satisfies: it is the
    row of a method of a path of the document, a method whose key is
    not null and whose metadata is a mapping, so that its path is that
    path and its method the upper-case text of that key; its locations
    hold no backtick, and its notes are the empty string unless they
    are true in a condition. *)
Definition built_row {U : Unicode} (doc : dict yval) (r : Row) : Prop :=
  (exists p meta ms k mm,
      In (p, meta) doc
      /\ methods_mapping meta = Some ms
      /\ In (k, Map mm) ms
      /\ py_eqb k SNone = false
      /\ r = row_of p meta k mm
      /\ path r = p
      /\ method r = str_upper (str_scalar k))
  /\ (forall l, locations r = Some l -> ~ In backtick l)
  /\ (truthy (notes r) = true \/ notes r = VStr []).

(** What [build_rows] keeps true of the sections while it runs. *)
Definition sections_inv {U : Unicode} (doc : dict yval) (s : Sections) : Prop :=
  distinct_keys s
  /\ Forall (fun kv : scalar * list Row =>
               truthy (Scalar (fst kv)) = true
               /\ snd kv <> []
               /\ Forall (built_row doc) (snd kv)) s.

(** A document whose only path has a list as section name. *)
Definition list_section_doc (ms : dict yval) : dict yval :=
  [(K "/a", Map [(K "section", Seq [VStr (lit "x")]); (K "methods", Map ms)])].

(** The sections of the sample document. *)
Definition sample_sections : Sections :=
  [(K "Uncategorized",
    [{| path := K "/a"; method := lit "POST"; region_aware := false;
        absolute := false; owner := VNone; endpoint_name := VNone;
        backend_class := VNone; locations := None;
        notes := VStr (lit "x") |};
     plain_row "/a" "GET"]);
   (K "Zed",
    [{| path := K "/b"; method := lit "PUT"; region_aware := false;
        absolute := false; owner := VNone; endpoint_name := VNone;
        backend_class := VNone;
        locations := Some (lit "a" ++ [prime] ++ lit "b, c");
        notes := VStr [] |}]);
   (K "Alpha", [plain_row "/c" "TRACE"])].

(** A field the renderer can put in a cell: false in a condition, or a
    string. *)
Definition cell_ok (v : yval) : bool :=
  negb (truthy v) || str_or_none v.

(** A row every cell of which can be rendered. *)
Definition renderable (r : Row) : bool :=
  str_or_none (Scalar (path r))
  && cell_ok (owner r) && cell_ok (endpoint_name r)
  && cell_ok (backend_class r).

(** A row whose owner is a number. *)
Definition numbered_owner_row : Row :=
  {| path := K "/a"; method := lit "GET"; region_aware := false;
     absolute := false; owner := Scalar (SInt 5); endpoint_name := VNone;
     backend_class := VNone; locations := None; notes := VStr [] |}.

(** A document whose section names are a number and a string. *)
Definition mixed_sections_doc : dict yval :=
  [(K "/a", Map [(K "section", Scalar (SInt 5));
                 (K "methods", Map [get_method])]);
   (K "/b", Map [(K "methods", Map [get_method])])].

(** A document none of whose paths has methods. *)
Definition bare_doc : dict yval :=
  [(K "/a", VNone); (K "/b", Map [(K "section", VStr (lit "S"))]);
   (K "/c", Map [(K "methods", Map [])])].

(** Locations as the data model has them: null, a string, or a sequence
    of strings and nulls. *)
Definition typed_locations (v : yval) : bool :=
  match v with
  | Scalar SNone | Scalar (SStr _) => true
  | Seq l => forallb str_or_none l
  | _ => false
  end.

(** A method entry keyed by a string (or by null), whose locations, when
    its metadata is a mapping, are typed. *)
Definition typed_method (m : scalar * yval) : bool :=
  match fst m with
  | SNone | SStr _ => true
  | _ => false
  end
  && match snd m with
     | Map mm => typed_locations (dict_get mm (K "locations"))
     | _ => true
     end.

(** A path given as a string whose methods, when they are a mapping,
    are typed: on such an entry no number is turned into text before
    the row is filed. *)
Definition typed_entry (item : scalar * yval) : bool :=
  is_str (fst item)
  && match methods_mapping (snd item) with
     | Some ms => forallb typed_method ms
     | None => true
     end.

(** Rows whose notes are strings. *)
Definition string_notes (r : Row) : Prop := exists s, notes r = VStr s.

(** A document that shares no path with the sample document. *)
Definition disjoint_doc : dict yval :=
  [(K "/x", Map [(K "section", VStr (lit "Zed"));
                 (K "methods", Map [get_method])]);
   (K "/y", Map [(K "methods", Map [get_method])])].

(* ================================================================= *)
(** ** Strings and the sanitizer *)

Lemma replace_backticks_map (s : pystr) :
  replace_backticks s = map sanitize_char s.
Proof.
  unfold replace_backticks, replace1, sanitize_char.
  induction s as [|c s IH]; simpl; [reflexivity|].
  rewrite IH. now destruct (c =? backtick).
Qed.

Lemma sanitize_char_not_backtick (c : N) : sanitize_char c <> backtick.
Proof.
  unfold sanitize_char. destruct (c =? backtick) eqn:E.
  - discriminate.
  - now apply N.eqb_neq.
Qed.

Lemma sanitize_char_idem (c : N) : sanitize_char (sanitize_char c) = sanitize_char c.
Proof.
  unfold sanitize_char at 1.
  destruct (sanitize_char c =? backtick) eqn:E; [|reflexivity].
  apply N.eqb_eq in E. now apply sanitize_char_not_backtick in E.
Qed.

Lemma replace_backticks_idem (s : pystr) :
  replace_backticks (replace_backticks s) = replace_backticks s.
Proof.
  rewrite !replace_backticks_map, map_map.
  apply map_ext. intro c. apply sanitize_char_idem.
Qed.

(** C5: on a string the sanitizer turns every backtick into U+2032 and
    keeps every other code point, position by position, so that no
    backtick is left; on null it returns the empty string; and
    sanitizing a sanitized string changes nothing. *)
Theorem sanitize_code_span_spec :
  (forall s, sanitize_code_span (VStr s) = Ok (map sanitize_char s))
  /\ (forall s r, sanitize_code_span (VStr s) = Ok r -> ~ In backtick r)
  /\ sanitize_code_span VNone = Ok []
  /\ (forall s r, sanitize_code_span (VStr s) = Ok r ->
                  sanitize_code_span (VStr r) = Ok r).
Proof.
  repeat split.
  - intro s. simpl. now rewrite replace_backticks_map.
  - intros s r H. simpl in H. injection H as <-.
    rewrite replace_backticks_map, in_map_iff.
    intros [c [Hc _]]. now apply sanitize_char_not_backtick in Hc.
  - intros s r H. simpl in H. injection H as <-.
    simpl. now rewrite replace_backticks_idem.
Qed.

(* ================================================================= *)
(** ** [normalize_locations] *)

Section Locations.
Context {U : Unicode}.

Lemma sanitize_str_ok (p : yval) :
  sanitize_code_span (VStr (py_str p)) = Ok (sanitize_str p).
Proof. reflexivity. Qed.

Lemma location_parts_acc (l : list yval) (acc : list pystr) :
  fold_left
    (fun parts p =>
       match p with
       | Scalar SNone => parts
       | _ => parts ++ [sanitize_str p]
       end) l acc
  = acc ++ map sanitize_str (filter (fun p => negb (is_none p)) l).
Proof.
  revert acc. induction l as [|p l IH]; intro acc; simpl.
  - now rewrite app_nil_r.
  - rewrite IH. destruct p as [[| | |]| |]; simpl;
      rewrite <- ?app_assoc; reflexivity.
Qed.

Lemma normalize_locations_seq (l : list yval) :
  normalize_locations (Seq l)
  = joined_or_absent (map sanitize_str (filter (fun p => negb (is_none p)) l)).
Proof.
  unfold normalize_locations. rewrite location_parts_acc. simpl.
  unfold joined_or_absent.
  now destruct (map sanitize_str _).
Qed.
End Locations.

(** C6: [normalize_locations] gives no value for null; the sanitized
    string for a string; for a sequence the sanitized string forms of
    its non-null elements joined with a comma and a space, or no value
    when no element is left; and for a value of any other type its
    sanitized string form.  The sequence of the scenario gives
    [a′b, c]. *)
Theorem normalize_locations_spec (U : Unicode) :
  normalize_locations VNone = None
  /\ (forall s, exists r, sanitize_code_span (VStr s) = Ok r
                          /\ normalize_locations (VStr s) = Some r)
  /\ (forall l,
        normalize_locations (Seq l)
        = joined_or_absent
            (map sanitize_str (filter (fun p => negb (is_none p)) l)))
  /\ (forall ss,
        exists parts,
          Forall2 (fun s r => sanitize_code_span (VStr s) = Ok r) ss parts
          /\ normalize_locations (Seq (map VStr ss)) = joined_or_absent parts)
  /\ (forall v, other_type v = true ->
        exists r, sanitize_code_span (VStr (py_str v)) = Ok r
                  /\ normalize_locations v = Some r)
  /\ normalize_locations (Seq [VStr (lit "a`b"); VStr (lit "c")])
     = Some (lit "a" ++ [prime] ++ lit "b, c").
Proof.
  split; [reflexivity|].
  split; [intro s; eexists; split; reflexivity|].
  split; [apply normalize_locations_seq|].
  split.
  - intros ss. exists (map replace_backticks ss). split.
    + induction ss; constructor; [reflexivity|assumption].
    + rewrite normalize_locations_seq. f_equal.
      induction ss as [|s ss IH]; simpl; [reflexivity|]. now rewrite IH.
  - split; [|reflexivity].
    intros v Hv. eexists. split; [apply sanitize_str_ok|].
    destruct v as [[| | |]| |]; try discriminate; reflexivity.
Qed.

(* ================================================================= *)
(** ** The driver: exit statuses *)

Section Driver.
Context {U : Unicode}.

Lemma written_app (t1 t2 : list event) :
  written (t1 ++ t2) = written t1 ++ written t2.
Proof. unfold written. now rewrite flat_map_app. Qed.

Lemma stderr_app (t1 t2 : list event) :
  stderr (t1 ++ t2) = stderr t1 ++ stderr t2.
Proof. unfold stderr. now rewrite flat_map_app. Qed.

Lemma bind_events {A B} (m : M A) (f : A -> M B) :
  events (bind m f)
  = events m ++ match value m with
                | Ok a => events (f a)
                | Raise _ => []
                end.
Proof.
  destruct m as [tr [a|e]]; unfold events, value; simpl.
  - now destruct (f a).
  - now rewrite app_nil_r.
Qed.

Lemma bind_value {A B} (m : M A) (f : A -> M B) :
  value (bind m f)
  = match value m with
    | Ok a => value (f a)
    | Raise e => Raise e
    end.
Proof.
  destruct m as [tr [a|e]]; unfold value; simpl; [|reflexivity].
  now destruct (f a).
Qed.

Lemma for_each_written {A S} (body : S -> A -> M S) (items : list A) :
  (forall s x, written (events (body s x)) = []) ->
  forall s, written (events (for_each body items s)) = [].
Proof.
  intro Hb. induction items as [|x items IH]; intro s; simpl.
  - reflexivity.
  - rewrite bind_events, written_app, Hb. simpl.
    destruct (value (body s x)); [apply IH|reflexivity].
Qed.

Lemma build_method_written (p : PathInfo) (sections : Sections)
    (item : scalar * yval) :
  written (events (build_method p sections item)) = [].
Proof.
  destruct item as [k v]. unfold build_method.
  destruct k; try reflexivity;
    destruct v as [a|l|d]; try reflexivity;
    destruct (hashable (pi_section_name p)); reflexivity.
Qed.

Lemma build_path_written (sections : Sections) (item : scalar * yval) :
  written (events (build_path sections item)) = [].
Proof.
  destruct item as [k v]. unfold build_path.
  destruct (path_info k v) as [p methods].
  destruct methods as [a|l|ms]; try reflexivity.
  apply for_each_written. intros. apply build_method_written.
Qed.

Lemma build_rows_written (yaml_map : dict yval) :
  written (events (build_rows yaml_map)) = [].
Proof.
  apply for_each_written. intros. apply build_path_written.
Qed.

Lemma main_read_failure (w : World) (args : Args) (e : exn) :
  read_input w args = Raise e ->
  main w args = ([EStderr (FailedToRead (input args))], Ok 2%Z).
Proof. intro H. unfold main. now rewrite H. Qed.

Lemma main_parse_failure (w : World) (args : Args) (stream : pystr) (e : exn) :
  read_input w args = Ok stream ->
  parse_yaml (safe_load w) stream = Raise e ->
  main w args = ([EStderr FailedToParse], Ok 3%Z).
Proof. intros H1 H2. unfold main. now rewrite H1, H2. Qed.

Lemma parse_yaml_not_mapping (w : World) (stream : pystr) (v : yval) :
  safe_load w stream = Ok v -> is_dict v = false ->
  parse_yaml (safe_load w) stream = Raise ValueError.
Proof.
  intros H Hv. unfold parse_yaml. rewrite H. simpl.
  destruct v; [reflexivity|reflexivity|discriminate].
Qed.

(** The run once the document is parsed and the sections are built,
    ordered and rendered: only the write is left. *)
Lemma main_after_render (w : World) (args : Args) (stream : pystr)
    (yaml_map : dict yval) (tr : list event) (sections : Sections)
    (names : list scalar) (parts : list pystr) :
  read_input w args = Ok stream ->
  parse_yaml (safe_load w) stream = Ok yaml_map ->
  build_rows yaml_map = (tr, Ok sections) ->
  section_order args sections = Ok names ->
  render_parts sections names = Ok parts ->
  main w args
  = (tr ++ [EWrite (output args) (output_text parts)]
        ++ match write_result w args (output_text parts) with
           | Ok _ => []
           | Raise _ => [EStderr (FailedToWrite (output args))]
           end,
     match write_result w args (output_text parts) with
     | Ok _ => Ok 0%Z
     | Raise _ => Ok 4%Z
     end).
Proof.
  intros H1 H2 H3 H4 H5. unfold main, render_and_write. rewrite H1, H2, H3.
  unfold bind, lift, catch, write_output, emit, ret, bind.
  rewrite H4, H5. simpl.
  destruct (write_result w args (output_text parts)); reflexivity.
Qed.
End Driver.

(** C8: the run returns 2 when the input cannot be read and 3 when the
    document cannot be parsed or its top level is no mapping, and in
    both cases nothing is handed to the output; once the sections are
    rendered it returns 4 when the write fails and 0 when it succeeds.
    The three failure statuses differ from each other and from 0. *)
Theorem exit_statuses (U : Unicode) (w : World) (args : Args) :
  (forall e, read_input w args = Raise e ->
     value (main w args) = Ok 2%Z /\ written (events (main w args)) = [])
  /\ (forall stream e,
        read_input w args = Ok stream ->
        parse_yaml (safe_load w) stream = Raise e ->
        value (main w args) = Ok 3%Z /\ written (events (main w args)) = [])
  /\ (forall stream v,
        read_input w args = Ok stream ->
        safe_load w stream = Ok v -> is_dict v = false ->
        value (main w args) = Ok 3%Z /\ written (events (main w args)) = [])
  /\ (forall stream yaml_map tr sections names parts,
        read_input w args = Ok stream ->
        parse_yaml (safe_load w) stream = Ok yaml_map ->
        build_rows yaml_map = (tr, Ok sections) ->
        section_order args sections = Ok names ->
        render_parts sections names = Ok parts ->
        (forall e, write_result w args (output_text parts) = Raise e ->
                   value (main w args) = Ok 4%Z)
        /\ (write_result w args (output_text parts) = Ok tt ->
            value (main w args) = Ok 0%Z
            /\ written (events (main w args)) = [output_text parts]))
  /\ (forall code, In code [2%Z; 3%Z; 4%Z] -> code <> 0%Z)
  /\ NoDup [2%Z; 3%Z; 4%Z].
Proof.
  split; [|split; [|split; [|split; [|split]]]].
  - intros e H. now rewrite (main_read_failure _ _ H).
  - intros stream e H1 H2. now rewrite (main_parse_failure _ _ H1 H2).
  - intros stream v H1 H2 H3.
    now rewrite (main_parse_failure _ _ H1 (parse_yaml_not_mapping _ _ H2 H3)).
  - intros stream yaml_map tr sections names parts H1 H2 H3 H4 H5.
    rewrite (main_after_render _ _ H1 H2 H3 H4 H5). split.
    + intros e He. now rewrite He.
    + intro Hw. rewrite Hw. split; [reflexivity|].
      unfold events. simpl. rewrite written_app. simpl.
      pose proof (build_rows_written yaml_map) as Hb.
      rewrite H3 in Hb. unfold events in Hb. simpl in Hb.
      now rewrite Hb.
  - intros code [<-|[<-|[<-|[]]]]; discriminate.
  - repeat constructor; simpl; intuition discriminate.
Qed.

(** C10: when the input parses to the empty mapping, the text handed to
    the output is one newline and nothing else, and the run returns 0
    once that write succeeds. *)
Theorem empty_document (U : Unicode) (w : World) (args : Args)
    (stream : pystr) :
  read_input w args = Ok stream ->
  safe_load w stream = Ok (Map []) ->
  written (events (main w args)) = [newline]
  /\ (write_result w args newline = Ok tt ->
      main w args = ([EWrite (output args) newline], Ok 0%Z)).
Proof.
  intros H1 H2.
  assert (Hp : parse_yaml (safe_load w) stream = Ok []).
  { unfold parse_yaml. now rewrite H2. }
  rewrite (@main_after_render U w args stream [] [] [] [] [] H1 Hp
             eq_refl).
  - change (output_text []) with newline. split.
    + unfold events. simpl. now destruct (write_result w args newline).
    + intro Hw. now rewrite Hw.
  - unfold section_order. now destruct (no_sort args).
  - reflexivity.
Qed.

Lemma empty_document_witness :
  written (events (main (U := AsciiOnly) (world_of (Map [])) (stdio true)))
  = [newline]
  /\ (write_result (world_of (Map [])) (stdio true) newline = Ok tt ->
      main (U := AsciiOnly) (world_of (Map [])) (stdio true)
      = ([EWrite (output (stdio true)) newline], Ok 0%Z)).
Proof.
  apply (@empty_document AsciiOnly (world_of (Map [])) (stdio true) []);
    reflexivity.
Defined.

(* ================================================================= *)
(** ** The driver: joining the sections *)

Section Joining.
Context {U : Unicode}.

Lemma render_loop (sections : Sections) (names : list scalar) :
  forall (out_parts : list pystr) (first : bool),
    for_each_r (render_step sections) names (out_parts, first)
    = (mds <-r map_r (render_named sections) names ;;
       Ok (out_parts
             ++ (if first then intersperse [] mds
                 else flat_map (fun md => [[]; md]) mds),
           match names with [] => first | _ => false end)).
Proof.
  induction names as [|sec names IH]; intros out_parts first; simpl.
  - destruct first; simpl; now rewrite app_nil_r.
  - unfold render_named at 1.
    destruct (getitem sections sec) as [rows|e]; simpl; [|reflexivity].
    destruct (render_section sec rows) as [md|e]; simpl; [|reflexivity].
    rewrite IH.
    destruct (map_r (render_named sections) names) as [mds|e]; simpl;
      [|reflexivity].
    f_equal. f_equal.
    destruct first; simpl; rewrite <- !app_assoc; simpl.
    + f_equal. destruct mds as [|md' mds]; simpl; [reflexivity|].
      f_equal. f_equal. clear. revert md'.
      induction mds as [|x mds IH]; intro md'; simpl; [reflexivity|].
      now rewrite <- IH.
    + reflexivity.
    + now destruct names.
Qed.

Lemma render_parts_intersperse (sections : Sections) (names : list scalar) :
  render_parts sections names
  = (mds <-r map_r (render_named sections) names ;;
     Ok (intersperse [] mds)).
Proof.
  unfold render_parts. rewrite render_loop.
  now destruct (map_r (render_named sections) names).
Qed.

(** The text of a document of several sections: four newlines, that
    is three empty lines, stand between two sections. *)
Lemma join_cons (sep p : pystr) (rest : list pystr) :
  rest <> [] -> join sep (p :: rest) = p ++ sep ++ join sep rest.
Proof. destruct rest; [congruence|reflexivity]. Qed.

Lemma intersperse_nonempty {A} (sep x : A) (l : list A) :
  intersperse sep (x :: l) <> [].
Proof. destruct l; discriminate. Qed.

Lemma join_intersperse (sep : pystr) (mds : list pystr) :
  join sep (intersperse [] mds) = join (sep ++ sep) mds.
Proof.
  induction mds as [|md mds IH]; [reflexivity|].
  destruct mds as [|md' mds]; [reflexivity|].
  change (intersperse [] (md :: md' :: mds))
    with (md :: [] :: intersperse [] (md' :: mds)).
  rewrite join_cons; [|discriminate].
  rewrite (@join_cons sep []); [|apply intersperse_nonempty].
  rewrite IH, (@join_cons (sep ++ sep) md); [|discriminate].
  simpl. now rewrite <- !app_assoc.
Qed.

Lemma output_text_sections (mds : list pystr) :
  output_text (intersperse [] mds)
  = join (newline ++ newline ++ newline ++ newline) mds ++ newline.
Proof.
  unfold output_text. rewrite join_intersperse.
  now rewrite <- !app_assoc.
Qed.

(** What a run writes once every section is rendered. *)
Lemma document_text (w : World) (args : Args) (stream : pystr)
    (yaml_map : dict yval) (tr : list event) (sections : Sections)
    (names : list scalar) (mds : list pystr) :
  read_input w args = Ok stream ->
  parse_yaml (safe_load w) stream = Ok yaml_map ->
  build_rows yaml_map = (tr, Ok sections) ->
  section_order args sections = Ok names ->
  map_r (render_named sections) names = Ok mds ->
  written (events (main w args))
  = [join (newline ++ newline ++ newline ++ newline) mds ++ newline].
Proof.
  intros H1 H2 H3 H4 H5.
  assert (Hp : render_parts sections names = Ok (intersperse [] mds)).
  { rewrite render_parts_intersperse, H5. reflexivity. }
  rewrite (main_after_render _ _ H1 H2 H3 H4 Hp).
  unfold events. cbn [fst]. rewrite !written_app.
  pose proof (build_rows_written yaml_map) as Hb.
  rewrite H3 in Hb. unfold events in Hb. cbn [fst] in Hb. rewrite Hb.
  rewrite output_text_sections.
  destruct (write_result w args _); reflexivity.
Qed.
End Joining.

(** C1 (evaluation): for a document with the two sections [A] and [B]
    the text written is the table of [A], four newline characters, the
    table of [B] and one newline: three empty lines stand between the
    two tables, not one. *)
Theorem two_sections_separator :
  exists md_a md_b,
    render_section (U := AsciiOnly) (K "A") [plain_row "/a" "GET"] = Ok md_a
    /\ render_section (U := AsciiOnly) (K "B") [plain_row "/b" "GET"] = Ok md_b
    /\ main (U := AsciiOnly) (world_of (Map two_sections_doc)) (stdio true)
       = ([EWrite (lit "-")
             (md_a ++ [10; 10; 10; 10] ++ md_b ++ [10])],
          Ok 0%Z).
Proof.
  eexists. eexists. split; [reflexivity|]. split; [reflexivity|].
  vm_compute. reflexivity.
Qed.

(* ================================================================= *)
(** ** Orders *)


Section StrictTotalFacts.
Variables (K : Type) (lt : K -> K -> bool).
Hypothesis ST : StrictTotal lt.

Lemma st_asym (a b : K) : lt a b = true -> lt b a = false.
Proof.
  intro H. destruct (lt b a) eqn:E; [|reflexivity].
  pose proof (st_trans ST _ _ _ H E) as H'.
  now rewrite (st_irrefl ST) in H'.
Qed.

Lemma st_cotrans (a b c : K) :
  lt a b = false -> lt b c = false -> lt a c = false.
Proof.
  intros H1 H2. destruct (lt a c) eqn:E; [|reflexivity].
  destruct (lt b a) eqn:Eba.
  - now rewrite (st_trans ST _ _ _ Eba E) in H2.
  - rewrite (st_total ST _ _ H1 Eba) in E. congruence.
Qed.
End StrictTotalFacts.


Lemma lex_strict_total {A B} (eqA ltA : A -> A -> bool) (ltB : B -> B -> bool) :
  (forall a b, eqA a b = true <-> a = b) ->
  StrictTotal ltA -> StrictTotal ltB ->
  StrictTotal (lex_ltb eqA ltA ltB).
Proof.
  intros Heq SA SB. unfold lex_ltb.
  assert (Hrefl : forall a, eqA a a = true) by (intro; now apply Heq).
  split.
  - intros [a b]. simpl. rewrite Hrefl. apply (st_irrefl SB).
  - intros [a1 b1] [a2 b2] [a3 b3]. simpl.
    destruct (eqA a1 a2) eqn:E12.
    + apply Heq in E12. subst a2.
      destruct (eqA a1 a3); [apply (st_trans SB)|intros _ H; exact H].
    + destruct (eqA a2 a3) eqn:E23.
      * apply Heq in E23. subst a3. rewrite E12. intros H _. exact H.
      * intros H1 H2. pose proof (st_trans SA _ _ _ H1 H2) as H13.
        destruct (eqA a1 a3) eqn:E13; [|exact H13].
        apply Heq in E13. subst a3.
        now rewrite (st_irrefl SA) in H13.
  - intros [a1 b1] [a2 b2]. simpl.
    destruct (eqA a1 a2) eqn:E12.
    + apply Heq in E12. subst a2. rewrite Hrefl.
      intros H1 H2. f_equal. now apply (st_total SB).
    + destruct (eqA a2 a1) eqn:E21.
      * apply Heq in E21. subst a2. now rewrite Hrefl in E12.
      * intros H1 H2. rewrite (st_total SA _ _ H1 H2) in E12.
        now rewrite Hrefl in E12.
Qed.

Lemma str_eqb_eq (s t : pystr) : PyStr.eqb s t = true <-> s = t.
Proof.
  revert t. induction s as [|c s IH]; intros [|d t]; simpl;
    try (split; congruence).
  rewrite andb_true_iff, N.eqb_eq, IH. split.
  - now intros [-> ->].
  - intro H. now injection H.
Qed.

Lemma str_eqb_refl (s : pystr) : PyStr.eqb s s = true.
Proof. now apply str_eqb_eq. Qed.

Lemma str_lt_strict_total : StrictTotal PyStr.ltb.
Proof.
  split.
  - induction a as [|c s IH]; simpl; [reflexivity|].
    now rewrite N.ltb_irrefl, N.eqb_refl, IH.
  - induction a as [|c s IH]; intros [|d t] [|e u]; simpl; try congruence.
    rewrite !orb_true_iff, !andb_true_iff, !N.ltb_lt, !N.eqb_eq.
    intros [H1|[-> H1]] [H2|[-> H2]].
    + left. lia.
    + now left.
    + now left.
    + right. split; [reflexivity|]. now apply (IH t u).
  - induction a as [|c s IH]; intros [|d t]; simpl; try congruence.
    rewrite !orb_false_iff, !andb_false_iff, !N.ltb_ge, !N.eqb_neq.
    intros [H1 H1'] [H2 H2'].
    assert (c = d) by lia. subst d. f_equal.
    apply IH; [destruct H1'|destruct H2']; congruence.
Qed.

Lemma nat_lt_strict_total : StrictTotal Nat.ltb.
Proof.
  split.
  - intro a. apply Nat.ltb_irrefl.
  - intros a b c. rewrite !Nat.ltb_lt. lia.
  - intros a b. rewrite !Nat.ltb_ge. lia.
Qed.

(* ================================================================= *)
(** ** [sorted] *)

Section SortedFacts.
Variables (A K : Type) (key : A -> K).
Variables (lt defined : K -> K -> bool).

(** The elements the order is well behaved on. *)
Variable dom : A -> Prop.
Hypothesis lt_asym :
  forall a b, dom a -> dom b ->
    lt (key a) (key b) = true -> lt (key b) (key a) = false.
Hypothesis lt_cotrans :
  forall a b c, dom a -> dom b -> dom c ->
    lt (key a) (key b) = false -> lt (key b) (key c) = false ->
    lt (key a) (key c) = false.


Lemma insert_perm (x : A) (l : list A) : Permutation (x :: l) (insert key lt x l).
Proof.
  induction l as [|y l IH]; simpl; [reflexivity|].
  destruct (lt (key y) (key x)); [|reflexivity].
  rewrite perm_swap. now constructor.
Qed.

Lemma stable_sort_perm (l : list A) : Permutation l (stable_sort key lt l).
Proof.
  induction l as [|x l IH]; simpl; [reflexivity|].
  rewrite <- insert_perm. now constructor.
Qed.

Lemma stable_sort_dom (l : list A) : Forall dom l -> Forall dom (stable_sort key lt l).
Proof.
  intro H. rewrite Forall_forall in *. intros x Hx. apply H.
  now apply (Permutation_in _ (Permutation_sym (stable_sort_perm l))).
Qed.

Lemma insert_ordered (x : A) (l : list A) :
  dom x -> Forall dom l -> ordered key lt l -> ordered key lt (insert key lt x l).
Proof.
  intros Hx Hl Hs. unfold ordered in *. induction Hs as [|y l Hs IH Hy]; simpl.
  - repeat constructor.
  - inversion Hl as [|? ? Hdy Hdl]; subst.
    destruct (lt (key y) (key x)) eqn:E.
    + constructor; [now apply IH|].
      rewrite Forall_forall. intros z Hz.
      apply (Permutation_in _ (Permutation_sym (insert_perm x l))) in Hz.
      destruct Hz as [<-|Hz].
      * now apply lt_asym.
      * rewrite Forall_forall in Hy. now apply Hy.
    + constructor; [now constructor|].
      constructor; [exact E|].
      rewrite Forall_forall in *. intros z Hz.
      apply (lt_cotrans (a := z) (b := y) (c := x)); auto.
Qed.

Lemma stable_sort_ordered (l : list A) : Forall dom l -> ordered key lt (stable_sort key lt l).
Proof.
  induction l as [|x l IH]; intro H; simpl; [constructor|].
  inversion H; subst.
  apply insert_ordered; auto using stable_sort_dom.
Qed.

Lemma insert_filter_tie (r x : A) (l : list A) :
  dom r -> dom x -> Forall dom l ->
  filter (tie key lt r) (insert key lt x l) = filter (tie key lt r) (x :: l).
Proof.
  intros Hr Hx Hl. induction l as [|y l IH]; [reflexivity|].
  inversion Hl; subst. cbn [insert].
  destruct (lt (key y) (key x)) eqn:E; [|reflexivity].
  cbn [filter] in *. rewrite IH by assumption.
  destruct (tie key lt r x) eqn:Tx; [|reflexivity].
  assert (Ty : tie key lt r y = false); [|now rewrite Ty].
  unfold tie in *. apply andb_true_iff in Tx. destruct Tx as [T1 T2].
  apply negb_true_iff in T1, T2.
  destruct (lt (key y) (key r)) eqn:Eyr.
  - now rewrite andb_false_r.
  - now rewrite (lt_cotrans (a := y) (b := r) (c := x)) in E.
Qed.

Lemma stable_sort_stable (r : A) (l : list A) :
  dom r -> Forall dom l ->
  filter (tie key lt r) (stable_sort key lt l) = filter (tie key lt r) l.
Proof.
  intros Hr Hl. induction l as [|x l IH]; [reflexivity|].
  inversion Hl; subst.
  change (stable_sort key lt (x :: l)) with (insert key lt x (stable_sort key lt l)).
  rewrite insert_filter_tie; auto using stable_sort_dom.
  cbn [filter]. now rewrite IH.
Qed.

Lemma py_sorted_ok (l : list A) :
  (forall a b, dom a -> dom b -> defined (key a) (key b) = true) ->
  Forall dom l ->
  py_sorted key lt defined l = Ok (stable_sort key lt l).
Proof.
  intros Hd Hl. unfold py_sorted.
  assert (H : all_pairs key defined l = true); [|now rewrite H].
  induction Hl as [|x l Hx Hl IH]; [reflexivity|].
  simpl. rewrite IH, andb_true_r. apply forallb_forall.
  intros y Hy. rewrite Forall_forall in Hl. auto.
Qed.
End SortedFacts.

(* ================================================================= *)
(** ** The order of the rows of a section *)

Lemma index_lt_length (x : pystr) (xs : list pystr) :
  mem x xs = true -> (PyStr.index x xs < List.length xs)%nat.
Proof.
  unfold mem. induction xs as [|y xs IH]; simpl; [discriminate|].
  destruct (PyStr.eqb x y); simpl; [lia|].
  intro H. apply IH in H. lia.
Qed.

Lemma str_key_strict_total : StrictTotal str_key_ltb.
Proof.
  apply lex_strict_total.
  - apply str_eqb_eq.
  - apply str_lt_strict_total.
  - apply lex_strict_total.
    + apply Nat.eqb_eq.
    + apply nat_lt_strict_total.
    + apply str_lt_strict_total.
Qed.

Section RowOrderFacts.
Context {U : Unicode}.

Lemma key_ltb_str_key (a b : Row) :
  string_path a -> string_path b ->
  key_ltb (row_key a) (row_key b) = str_key_ltb (str_key a) (str_key b).
Proof.
  unfold string_path, row_key, str_key, path_str.
  destruct (path a); try discriminate. destruct (path b); try discriminate.
  intros _ _. unfold key_ltb, str_key_ltb, lex_ltb.
  destruct (method_sort_key (method a)), (method_sort_key (method b)).
  reflexivity.
Qed.

(** The comparison of the sort keys is the order of the
    specification. *)
Lemma key_ltb_row_before (a b : Row) :
  string_path a -> string_path b ->
  key_ltb (row_key a) (row_key b) = row_before a b.
Proof.
  unfold string_path, row_key, row_before.
  destruct (path a) as [| | |p]; try discriminate.
  destruct (path b) as [| | |q]; try discriminate.
  intros _ _. unfold key_ltb, method_before, priority, method_sort_key.
  simpl py_eqb.
  destruct (mem (str_upper (method a)) METHOD_ORDER) eqn:Ea,
           (mem (str_upper (method b)) METHOD_ORDER) eqn:Eb;
    (destruct (PyStr.eqb p q); [|reflexivity]).
  - destruct (Nat.eqb _ _) eqn:E; [|reflexivity].
    apply Nat.eqb_eq in E. rewrite E. now rewrite Nat.ltb_irrefl.
  - apply index_lt_length in Ea.
    destruct (Nat.eqb _ _) eqn:E.
    + apply Nat.eqb_eq in E. lia.
    + now apply Nat.ltb_lt.
  - apply index_lt_length in Eb.
    destruct (Nat.eqb _ _) eqn:E.
    + apply Nat.eqb_eq in E. lia.
    + apply Nat.ltb_ge. lia.
  - now rewrite Nat.eqb_refl.
Qed.

Lemma key_ltb_asym (a b : Row) :
  string_path a -> string_path b ->
  key_ltb (row_key a) (row_key b) = true ->
  key_ltb (row_key b) (row_key a) = false.
Proof.
  intros Ha Hb. rewrite !key_ltb_str_key by assumption.
  apply (st_asym str_key_strict_total).
Qed.

Lemma key_ltb_cotrans (a b c : Row) :
  string_path a -> string_path b -> string_path c ->
  key_ltb (row_key a) (row_key b) = false ->
  key_ltb (row_key b) (row_key c) = false ->
  key_ltb (row_key a) (row_key c) = false.
Proof.
  intros Ha Hb Hc. rewrite !key_ltb_str_key by assumption.
  apply (st_cotrans str_key_strict_total).
Qed.

Lemma key_lt_defined_str (a b : Row) :
  string_path a -> string_path b ->
  key_lt_defined (row_key a) (row_key b) = true.
Proof.
  unfold string_path, key_lt_defined, row_key. simpl.
  destruct (path a); try discriminate. destruct (path b); try discriminate.
  intros _ _. apply orb_true_r.
Qed.

Lemma sort_rows_ok (rows : list Row) :
  Forall string_path rows ->
  sort_rows rows = Ok (stable_sort row_key key_ltb rows).
Proof.
  intro H. unfold sort_rows.
  apply (py_sorted_ok row_key key_ltb key_lt_defined (dom := string_path));
    auto using key_lt_defined_str.
Qed.

Lemma ordered_row_before (l : list Row) :
  Forall string_path l ->
  ordered row_key key_ltb l ->
  StronglySorted (fun a b => row_before b a = false) l.
Proof.
  unfold ordered. intros Hl Hs.
  induction Hs as [|x l Hs IH Hx]; constructor.
  - apply IH. now inversion Hl.
  - inversion Hl as [|? ? Hdx Hdl]; subst.
    rewrite Forall_forall in *. intros y Hy.
    rewrite <- key_ltb_row_before by auto. auto.
Qed.

Lemma filter_same_rank (r : Row) (l : list Row) :
  string_path r -> Forall string_path l ->
  filter (same_rank r) l = filter (tie row_key key_ltb r) l.
Proof.
  intros Hr Hl. apply filter_ext_in. intros x Hx.
  rewrite Forall_forall in Hl. unfold same_rank, tie.
  now rewrite !key_ltb_row_before by auto.
Qed.
End RowOrderFacts.

(** C3: the rows of a section whose paths are strings are sorted, and
    the result is a rearrangement of the rows in which no row comes
    after a row it is before in the order of the specification (path
    first, by code points; then the method: a listed method by its
    position in GET, POST, PUT, DELETE, PATCH, HEAD, OPTIONS whatever
    its case, an unlisted one after all listed ones and by code points
    among the unlisted, on the upper-case form the rows carry), and in
    which rows that tie keep the order they had. *)
Theorem row_order (U : Unicode) (rows : list Row) :
  Forall string_path rows ->
  exists rows_sorted,
    sort_rows rows = Ok rows_sorted
    /\ Permutation rows rows_sorted
    /\ StronglySorted (fun a b => row_before b a = false) rows_sorted
    /\ (forall r, string_path r ->
          filter (same_rank r) rows_sorted = filter (same_rank r) rows)
    /\ (forall m1 m2,
          priority m1 = None -> priority m2 = None ->
          str_upper m1 = m1 -> str_upper m2 = m2 ->
          method_before m1 m2 = PyStr.ltb m1 m2).
Proof.
  intro H. exists (stable_sort row_key key_ltb rows).
  assert (Hs : Forall string_path (stable_sort row_key key_ltb rows)).
  { now apply stable_sort_dom. }
  split; [now apply sort_rows_ok|].
  split; [apply stable_sort_perm|].
  split.
  { apply ordered_row_before; [exact Hs|].
    apply stable_sort_ordered with (dom := string_path);
      [exact key_ltb_asym|exact key_ltb_cotrans|exact H]. }
  split.
  { intros r Hr. rewrite !filter_same_rank by assumption.
    apply stable_sort_stable with (dom := string_path);
      [exact key_ltb_cotrans|exact Hr|exact H]. }
  intros m1 m2 H1 H2 E1 E2. unfold method_before.
  now rewrite H1, H2, E1, E2.
Qed.

(* ================================================================= *)
(** ** Grouping rows into sections *)

Lemma py_eqb_refl (a : scalar) : py_eqb a a = true.
Proof.
  destruct a as [|b|z|s]; simpl; auto using Z.eqb_refl, str_eqb_refl.
Qed.

Lemma py_eqb_sym (a b : scalar) : py_eqb a b = py_eqb b a.
Proof.
  destruct a as [|x|x|s], b as [|y|y|t]; simpl; auto using Z.eqb_sym.
  destruct (PyStr.eqb s t) eqn:E.
  - apply str_eqb_eq in E. subst. now rewrite str_eqb_refl.
  - destruct (PyStr.eqb t s) eqn:E'; [|reflexivity].
    apply str_eqb_eq in E'. subst. now rewrite str_eqb_refl in E.
Qed.

Lemma py_eqb_trans (a b c : scalar) :
  py_eqb a b = true -> py_eqb b c = true -> py_eqb a c = true.
Proof.
  destruct a as [|x|x|s], b as [|y|y|t], c as [|z|z|u]; simpl;
    try congruence; rewrite ?Z.eqb_eq, ?str_eqb_eq; congruence.
Qed.

(** Equal keys match the same keys. *)
Lemma py_eqb_congr (a b c : scalar) :
  py_eqb a b = true -> py_eqb a c = py_eqb b c.
Proof.
  intro H. destruct (py_eqb a c) eqn:E1, (py_eqb b c) eqn:E2; try reflexivity.
  - rewrite py_eqb_sym in H. now rewrite (py_eqb_trans _ _ _ H E1) in E2.
  - now rewrite (py_eqb_trans _ _ _ H E2) in E1.
Qed.

Section Grouping.

Lemma rows_in_setdefault (d : Sections) (k k' : scalar) (r : Row) :
  rows_in (setdefault_append d k r) k'
  = if py_eqb k k' then rows_in d k' ++ [r] else rows_in d k'.
Proof.
  unfold rows_in. induction d as [|[k0 xs] d IH]; simpl.
  - now destruct (py_eqb k k').
  - destruct (py_eqb k0 k) eqn:E0; simpl.
    + rewrite (py_eqb_congr _ _ k' E0).
      now destruct (py_eqb k k').
    + destruct (py_eqb k0 k') eqn:E1; [|exact IH].
      destruct (py_eqb k k') eqn:E2; [|reflexivity].
      rewrite py_eqb_sym in E2.
      now rewrite (py_eqb_trans _ _ _ E1 E2) in E0.
Qed.

Lemma row_count_setdefault (d : Sections) (k : scalar) (r : Row) :
  row_count (setdefault_append d k r) = S (row_count d).
Proof.
  unfold row_count. induction d as [|[k0 xs] d IH]; simpl; [reflexivity|].
  destruct (py_eqb k0 k); simpl.
  - rewrite length_app. simpl. lia.
  - rewrite IH. lia.
Qed.

Lemma keys_setdefault (d : Sections) (k : scalar) (r : Row) :
  dict_keys (setdefault_append d k r)
  = if existsb (fun k0 => py_eqb k0 k) (dict_keys d) then dict_keys d
    else dict_keys d ++ [k].
Proof.
  unfold dict_keys. induction d as [|[k0 xs] d IH]; simpl; [reflexivity|].
  destruct (py_eqb k0 k); simpl; [reflexivity|].
  rewrite IH. now destruct (existsb _ _).
Qed.

Lemma nonempty_setdefault (d : Sections) (k : scalar) (r : Row) :
  Forall (fun kv : scalar * list Row => snd kv <> []) d ->
  Forall (fun kv : scalar * list Row => snd kv <> [])
         (setdefault_append d k r).
Proof.
  induction 1 as [|[k0 xs] d Hx Hd IH]; simpl.
  - repeat constructor. discriminate.
  - destruct (py_eqb k0 k); constructor; auto.
    simpl. now destruct xs.
Qed.

Lemma ForallOrdPairs_snoc {A} (R : A -> A -> Prop) (l : list A) (x : A) :
  ForallOrdPairs R l -> Forall (fun y => R y x) l ->
  ForallOrdPairs R (l ++ [x]).
Proof.
  induction 1 as [|y l Hy Hl IH]; intro H; simpl.
  - repeat constructor.
  - inversion H; subst. constructor; [|now apply IH].
    apply Forall_app. split; [assumption|now constructor].
Qed.

Lemma distinct_setdefault (d : Sections) (k : scalar) (r : Row) :
  distinct_keys d -> distinct_keys (setdefault_append d k r).
Proof.
  unfold distinct_keys. rewrite keys_setdefault.
  destruct (existsb _ _) eqn:E; [trivial|].
  intro H. apply ForallOrdPairs_snoc; [exact H|].
  rewrite Forall_forall. intros y Hy.
  destruct (py_eqb y k) eqn:Ey; [|reflexivity].
  assert (existsb (fun k0 => py_eqb k0 k) (dict_keys d) = true)
    by (apply existsb_exists; eauto).
  congruence.
Qed.

(** What filing a list of tagged rows does to a dictionary. *)
Lemma group_rows_in (tagged : list (scalar * Row)) :
  forall (acc : Sections) (k : scalar),
    rows_in (group tagged acc) k
    = rows_in acc k
      ++ map snd (filter (fun sr => py_eqb (fst sr) k) tagged).
Proof.
  unfold group. induction tagged as [|[k0 r] tagged IH]; intros acc k; simpl.
  - now rewrite app_nil_r.
  - rewrite IH, rows_in_setdefault.
    destruct (py_eqb k0 k); simpl; [now rewrite <- app_assoc|reflexivity].
Qed.

Lemma group_row_count (tagged : list (scalar * Row)) :
  forall acc, row_count (group tagged acc)
              = (row_count acc + List.length tagged)%nat.
Proof.
  unfold group. induction tagged as [|[k0 r] tagged IH]; intro acc; simpl.
  - lia.
  - rewrite IH, row_count_setdefault. lia.
Qed.

Lemma group_distinct (tagged : list (scalar * Row)) :
  forall acc, distinct_keys acc -> distinct_keys (group tagged acc).
Proof.
  unfold group. induction tagged as [|[k0 r] tagged IH]; intros acc H; simpl.
  - exact H.
  - apply IH. now apply distinct_setdefault.
Qed.

Lemma group_nonempty (tagged : list (scalar * Row)) :
  forall acc,
    Forall (fun kv : scalar * list Row => snd kv <> []) acc ->
    Forall (fun kv : scalar * list Row => snd kv <> []) (group tagged acc).
Proof.
  unfold group. induction tagged as [|[k0 r] tagged IH]; intros acc H; simpl.
  - exact H.
  - apply IH. now apply nonempty_setdefault.
Qed.
End Grouping.

Section FirstSeen.

Lemma filter_filter_absorb {A} (P Q : A -> bool) (l : list A) :
  (forall x, P x = true -> Q x = true) ->
  filter P (filter Q l) = filter P l.
Proof.
  intro H. induction l as [|x l IH]; simpl; [reflexivity|].
  destruct (Q x) eqn:EQ; simpl.
  - now rewrite IH.
  - destruct (P x) eqn:EP; [|exact IH].
    apply H in EP. congruence.
Qed.

Lemma filter_andb {A} (P Q : A -> bool) (l : list A) :
  filter (fun x => P x && Q x) l = filter P (filter Q l).
Proof.
  induction l as [|x l IH]; simpl; [reflexivity|].
  destruct (Q x); simpl; rewrite ?andb_true_r, ?andb_false_r.
  - destruct (P x); now rewrite IH.
  - exact IH.
Qed.

Lemma group_keys (tagged : list (scalar * Row)) :
  forall acc : Sections,
    dict_keys (group tagged acc)
    = dict_keys acc
      ++ filter (unseen (dict_keys acc)) (first_seen (map fst tagged)).
Proof.
  unfold group.
  induction tagged as [|[k0 r] tagged IH]; intro acc.
  - simpl. now rewrite app_nil_r.
  - cbn [fold_left map fst snd first_seen filter].
    rewrite IH, keys_setdefault.
    assert (Hu : unseen (dict_keys acc) k0
                 = negb (existsb (fun k1 => py_eqb k1 k0) (dict_keys acc)))
      by reflexivity.
    rewrite Hu.
    destruct (existsb (fun k1 => py_eqb k1 k0) (dict_keys acc)) eqn:E;
      cbn [negb].
    + f_equal. symmetry. apply filter_filter_absorb.
      intros x Hx. unfold unseen in Hx.
      destruct (py_eqb k0 x) eqn:E0; [|reflexivity].
      apply existsb_exists in E. destruct E as [y [Hy Ey]].
      apply negb_true_iff in Hx.
      assert (existsb (fun k1 => py_eqb k1 x) (dict_keys acc) = true).
      { apply existsb_exists. exists y. split; [exact Hy|].
        now apply (py_eqb_trans _ _ _ Ey). }
      congruence.
    + rewrite <- app_assoc. cbn [app]. f_equal. f_equal.
      rewrite <- filter_andb. apply filter_ext. intro x.
      unfold unseen. rewrite existsb_app. cbn [existsb].
      rewrite orb_false_r, negb_orb. reflexivity.
Qed.

Lemma filter_true {A} (l : list A) : filter (fun _ => true) l = l.
Proof. induction l; simpl; congruence. Qed.

Lemma group_keys_first_seen (tagged : list (scalar * Row)) :
  dict_keys (group tagged []) = first_seen (map fst tagged).
Proof. rewrite group_keys. simpl. apply filter_true. Qed.
End FirstSeen.

(* ================================================================= *)
(** ** [build_rows] files one row per pair *)

Section BuildRowsFacts.
Context {U : Unicode}.

Lemma for_each_value_fold {A S} (body : S -> A -> M S) (g : S -> A -> S)
    (P : A -> Prop) (items : list A) :
  (forall s x, P x -> value (body s x) = Ok (g s x)) ->
  Forall P items ->
  forall s, value (for_each body items s) = Ok (fold_left g items s).
Proof.
  intros Hb Hi. induction Hi as [|x items Hx Hi IH]; intro s; simpl.
  - reflexivity.
  - rewrite bind_value, (Hb s x Hx). apply IH.
Qed.

Lemma group_app (t1 t2 : list (scalar * Row)) (acc : Sections) :
  group (t1 ++ t2) acc = group t2 (group t1 acc).
Proof. unfold group. apply fold_left_app. Qed.

Lemma group_flat_map {A} (h : A -> list (scalar * Row)) (l : list A) :
  forall acc,
    group (flat_map h l) acc = fold_left (fun s x => group (h x) s) l acc.
Proof.
  induction l as [|x l IH]; intro acc; simpl; [reflexivity|].
  now rewrite group_app, IH.
Qed.

Lemma keyed_flat_map {A} (h : A -> list (yval * Row)) (l : list A) :
  keyed (flat_map h l) = flat_map (fun x => keyed (h x)) l.
Proof.
  unfold keyed. induction l as [|x l IH]; simpl; [reflexivity|].
  now rewrite map_app, IH.
Qed.

Lemma path_info_section (path : scalar) (meta : yval) :
  pi_section_name (fst (path_info path meta)) = resolved_section meta.
Proof. destruct meta as [a|l|d]; reflexivity. Qed.

(** The [methods] value the loop of a path runs over. *)
Lemma path_info_methods (path : scalar) (meta : yval) :
  snd (path_info path meta)
  = match meta with
    | Map d => py_or (dict_get d (K "methods")) (Map [])
    | _ => Map []
    end.
Proof. destruct meta as [a|l|d]; reflexivity. Qed.

Lemma build_method_value (p : PathInfo) (k : scalar) (s : Sections)
    (m : scalar * yval) :
  pi_section_name p = Scalar k ->
  py_eqb (fst m) SNone = false ->
  value (build_method p s m)
  = Ok (match snd m with
        | Map mm =>
            setdefault_append s k
              (make_row p (str_upper (str_scalar (fst m))) mm)
        | _ => s
        end).
Proof.
  destruct m as [mraw mmeta]. simpl. intros Hk Hm.
  unfold build_method. rewrite Hk. simpl.
  destruct mraw; try discriminate; destruct mmeta; reflexivity.
Qed.

Lemma build_path_value (s : Sections) (item : scalar * yval) :
  valid_path item = true ->
  value (build_path s item) = Ok (group (keyed (pairs_of_path item)) s).
Proof.
  destruct item as [path meta]. unfold valid_path. simpl snd.
  intro Hv. apply andb_true_iff in Hv. destruct Hv as [Hsec Hkeys].
  destruct (resolved_section meta) as [k| |] eqn:Ek; try discriminate.
  clear Hsec. unfold build_path, pairs_of_path.
  pose proof (path_info_section path meta) as Hp.
  pose proof (path_info_methods path meta) as Hm.
  destruct (path_info path meta) as [p methods] eqn:Epi.
  simpl in Hp, Hm. rewrite Ek in Hp.
  assert (Hloop : forall ms,
             forallb (fun m : scalar * yval => negb (py_eqb (fst m) SNone)) ms
             = true ->
             value (for_each (build_method p) ms s)
             = Ok (group
                     (keyed
                        (flat_map
                           (fun m : scalar * yval =>
                              match snd m with
                              | Map mm =>
                                  [(resolved_section meta,
                                    row_of path meta (fst m) mm)]
                              | _ => []
                              end) ms)) s)).
  { intros ms Hms.
    rewrite keyed_flat_map, group_flat_map.
    apply for_each_value_fold
      with (P := fun m : scalar * yval => py_eqb (fst m) SNone = false).
    - intros s0 m Hm0. rewrite (build_method_value _ s0 m Hp Hm0).
      f_equal. unfold row_of. rewrite Epi. simpl fst.
      destruct (snd m); try reflexivity.
      unfold keyed, group. simpl. now rewrite Ek.
    - rewrite Forall_forall. rewrite forallb_forall in Hms.
      intros m Hin. apply Hms in Hin. now apply negb_true_iff in Hin. }
  subst methods. unfold methods_mapping in *.
  destruct meta as [a|l|d]; [reflexivity|reflexivity|].
  unfold dict_get, dict_get_default.
  destruct (dict_find d (K "methods")) as [v|]; [|reflexivity].
  destruct v as [a|l|ms].
  - unfold py_or. destruct (truthy (Scalar a)); reflexivity.
  - unfold py_or. destruct (truthy (Seq l)); reflexivity.
  - assert (Hor : py_or (Map ms) (Map []) = Map ms).
    { now destruct ms. }
    rewrite Hor. now apply Hloop.
Qed.

Lemma build_rows_value (doc : dict yval) :
  valid_document doc = true ->
  value (build_rows doc) = Ok (group (keyed (document_pairs doc)) []).
Proof.
  intro Hv. unfold build_rows, document_pairs.
  rewrite keyed_flat_map, group_flat_map.
  apply for_each_value_fold with (P := fun item => valid_path item = true).
  - intros s item Hi. now apply build_path_value.
  - rewrite Forall_forall. unfold valid_document in Hv.
    rewrite forallb_forall in Hv. exact Hv.
Qed.
End BuildRowsFacts.

(* ================================================================= *)
(** ** Sections partition the rows *)

Section Partition.
Context {U : Unicode}.

Lemma valid_pairs_scalar (doc : dict yval) :
  valid_document doc = true ->
  Forall (fun sr : yval * Row => fst sr = Scalar (section_key (fst sr)))
         (document_pairs doc).
Proof.
  unfold valid_document, document_pairs. rewrite forallb_forall.
  intro Hv. rewrite Forall_forall. intros sr Hin.
  apply in_flat_map in Hin. destruct Hin as [[path meta] [Hitem Hin]].
  apply Hv in Hitem. unfold valid_path in Hitem.
  apply andb_true_iff in Hitem. destruct Hitem as [Hsec _]. simpl in Hsec.
  unfold pairs_of_path in Hin.
  destruct (methods_mapping meta) as [ms|]; [|contradiction].
  apply in_flat_map in Hin. destruct Hin as [m [_ Hin]].
  destruct (snd m); try contradiction.
  destruct Hin as [<-|[]]. simpl.
  now destruct (resolved_section meta).
Qed.

Lemma filter_keyed (k : scalar) (pairs : list (yval * Row)) :
  Forall (fun sr : yval * Row => fst sr = Scalar (section_key (fst sr)))
         pairs ->
  map snd (filter (fun sr => py_eqb (fst sr) k) (keyed pairs))
  = map snd (filter (in_section k) pairs).
Proof.
  unfold keyed. induction 1 as [|[v r] pairs Hsr Hp IH]; [reflexivity|].
  simpl in *. unfold in_section at 1. simpl. rewrite Hsr. simpl.
  destruct (py_eqb (section_key v) k); simpl; now rewrite IH.
Qed.

Lemma dict_find_key {V} (d : dict V) (k : scalar) (v : V) :
  dict_find d k = Some v ->
  exists k0, In k0 (dict_keys d) /\ py_eqb k0 k = true.
Proof.
  induction d as [|[k0 x] d IH]; simpl; [discriminate|].
  destruct (py_eqb k0 k) eqn:E.
  - intros _. exists k0. auto.
  - intro H. destruct (IH H) as [k1 [H1 H2]]. exists k1. auto.
Qed.

Lemma distinct_keys_unique {V} (d : dict V) (k1 k2 : scalar) :
  distinct_keys d ->
  In k1 (dict_keys d) -> In k2 (dict_keys d) ->
  py_eqb k1 k2 = true -> k1 = k2.
Proof.
  unfold distinct_keys. generalize (dict_keys d). intros l Hl.
  induction Hl as [|x l Hx Hl IH]; simpl; [contradiction|].
  rewrite Forall_forall in Hx.
  intros [<-|H1] [<-|H2] E; auto.
  - apply Hx in H2. congruence.
  - apply Hx in H1. rewrite py_eqb_sym in E. congruence.
Qed.
End Partition.

(** C4: for a valid document [build_rows] returns sections such that
    the rows filed under a section are exactly the rows of the
    (path, method) pairs whose path resolves to that section, one row
    per pair and in document order; the section names are pairwise
    different, so every pair has its row in exactly one section, the
    one its path resolves to; and the number of pairs is the sum of the
    row counts of the sections. *)
Theorem rows_partition (U : Unicode) (doc : dict yval) :
  valid_document doc = true ->
  exists sections,
    value (build_rows doc) = Ok sections
    /\ (forall k,
          rows_in sections k
          = map snd (filter (in_section k) (document_pairs doc)))
    /\ distinct_keys sections
    /\ (forall sr, In sr (document_pairs doc) ->
          exists k,
            In k (dict_keys sections) /\ in_section k sr = true
            /\ In (snd sr) (rows_in sections k)
            /\ forall k', In k' (dict_keys sections) ->
                          in_section k' sr = true -> k' = k)
    /\ row_count sections = List.length (document_pairs doc).
Proof.
  intro Hv. exists (group (keyed (document_pairs doc)) []).
  pose proof (valid_pairs_scalar doc Hv) as Hsc.
  assert (Hrows : forall k,
             rows_in (group (keyed (document_pairs doc)) []) k
             = map snd (filter (in_section k) (document_pairs doc))).
  { intro k. rewrite group_rows_in. simpl. now apply filter_keyed. }
  assert (Hd : distinct_keys (group (keyed (document_pairs doc)) [])).
  { apply group_distinct. constructor. }
  split; [now apply build_rows_value|].
  split; [exact Hrows|].
  split; [exact Hd|].
  split.
  - intros sr Hin.
    rewrite Forall_forall in Hsc. pose proof (Hsc sr Hin) as Hs.
    set (a := section_key (fst sr)) in *.
    assert (Ha : in_section a sr = true).
    { unfold in_section. rewrite Hs. apply py_eqb_refl. }
    assert (Hr : In (snd sr) (rows_in (group (keyed (document_pairs doc)) []) a)).
    { rewrite Hrows. apply in_map. apply filter_In. auto. }
    unfold rows_in in Hr.
    destruct (dict_find (group (keyed (document_pairs doc)) []) a)
      as [rows|] eqn:Ef; [|contradiction].
    destruct (dict_find_key _ _ Ef) as [k [Hk Ek]].
    assert (Hka : forall k', in_section k' sr = py_eqb a k').
    { intro k'. unfold in_section. now rewrite Hs. }
    exists k. split; [exact Hk|]. split.
    { rewrite Hka, py_eqb_sym. exact Ek. }
    split.
    { rewrite Hrows.
      apply in_map. apply filter_In. split; [exact Hin|].
      rewrite Hka, py_eqb_sym. exact Ek. }
    intros k' Hk' E'. rewrite Hka in E'.
    apply (@distinct_keys_unique _ _ k' k Hd Hk' Hk).
    rewrite py_eqb_sym. now apply (py_eqb_trans _ _ _ Ek).
  - rewrite group_row_count. unfold keyed. simpl. now rewrite length_map.
Qed.

(* ================================================================= *)
(** ** The order of the sections *)

Section SectionOrder.
Context {U : Unicode}.

Lemma scalar_ltb_asym (a b : scalar) :
  str_scalar_dom a -> str_scalar_dom b ->
  scalar_ltb a b = true -> scalar_ltb b a = false.
Proof.
  destruct a; try discriminate. destruct b; try discriminate.
  intros _ _. apply (st_asym str_lt_strict_total).
Qed.

Lemma scalar_ltb_cotrans (a b c : scalar) :
  str_scalar_dom a -> str_scalar_dom b -> str_scalar_dom c ->
  scalar_ltb a b = false -> scalar_ltb b c = false ->
  scalar_ltb a c = false.
Proof.
  destruct a; try discriminate. destruct b; try discriminate.
  destruct c; try discriminate.
  intros _ _ _. apply (st_cotrans str_lt_strict_total).
Qed.

Lemma scalar_ltb_total (a b : scalar) :
  str_scalar_dom a -> str_scalar_dom b ->
  scalar_ltb a b = false -> scalar_ltb b a = false -> a = b.
Proof.
  destruct a; try discriminate. destruct b; try discriminate.
  intros _ _ H1 H2. f_equal. now apply (st_total str_lt_strict_total).
Qed.

Lemma lt_defined_str (a b : scalar) :
  str_scalar_dom a -> str_scalar_dom b -> lt_defined a b = true.
Proof.
  destruct a; try discriminate. now destruct b.
Qed.

Lemma first_seen_incl (l : list scalar) (k : scalar) :
  In k (first_seen l) -> In k l.
Proof.
  induction l as [|x l IH]; simpl; [trivial|].
  intros [H|H]; [now left|].
  apply filter_In in H. right. now apply IH.
Qed.

Lemma distinct_NoDup (l : list scalar) :
  ForallOrdPairs (fun a b => py_eqb a b = false) l -> NoDup l.
Proof.
  induction 1 as [|x l Hx Hl IH]; constructor; [|exact IH].
  intro Hin. rewrite Forall_forall in Hx. apply Hx in Hin.
  now rewrite py_eqb_refl in Hin.
Qed.

Lemma strictly_sorted (l : list scalar) :
  Forall str_scalar_dom l -> NoDup l ->
  ordered (fun k : scalar => k) scalar_ltb l ->
  StronglySorted (fun a b => scalar_ltb a b = true) l.
Proof.
  unfold ordered. intros Hd Hn Hs.
  induction Hs as [|x l Hs IH Hx]; constructor.
  - apply IH; [now inversion Hd|now inversion Hn].
  - inversion Hd as [|? ? Hdx Hdl]; subst.
    inversion Hn as [|? ? Hnx Hnl]; subst.
    rewrite Forall_forall in *. intros y Hy.
    destruct (scalar_ltb x y) eqn:E; [reflexivity|].
    exfalso. apply Hnx.
    rewrite (@scalar_ltb_total x y); auto.
Qed.

Lemma section_order_sorted (args : Args) (sections : Sections) :
  no_sort args = false ->
  Forall str_scalar_dom (dict_keys sections) ->
  section_order args sections
  = Ok (stable_sort (fun k : scalar => k) scalar_ltb (dict_keys sections)).
Proof.
  intros Hn Hd. unfold section_order. rewrite Hn. simpl.
  apply py_sorted_ok with (dom := str_scalar_dom);
    [exact lt_defined_str|exact Hd].
Qed.
End SectionOrder.

(** The names of the sections of a valid document whose section names
    are strings, in the order in which [main] renders them. *)
Lemma section_order_names (U : Unicode) (doc : dict yval) (args : Args) :
  valid_document doc = true ->
  Forall str_scalar_dom (section_names_of doc) ->
  exists sections names,
    value (build_rows doc) = Ok sections
    /\ dict_keys sections = first_seen (section_names_of doc)
    /\ section_order args sections = Ok names
    /\ render_parts sections names
       = (mds <-r map_r (render_named sections) names ;;
          Ok (intersperse [] mds))
    /\ (no_sort args = false ->
          Permutation (first_seen (section_names_of doc)) names
          /\ StronglySorted (fun a b => scalar_ltb a b = true) names)
    /\ (no_sort args = true -> names = first_seen (section_names_of doc)).
Proof.
  intros Hv Hstr.
  set (sections := group (keyed (document_pairs doc)) []).
  assert (Hk : dict_keys sections = first_seen (section_names_of doc)).
  { unfold sections. rewrite group_keys_first_seen.
    unfold keyed, section_names_of. now rewrite map_map. }
  assert (Hd : Forall str_scalar_dom (dict_keys sections)).
  { rewrite Hk. rewrite Forall_forall in *. intros k Hin.
    apply Hstr. now apply first_seen_incl. }
  assert (Hn : NoDup (dict_keys sections)).
  { apply distinct_NoDup. apply (group_distinct (keyed (document_pairs doc))).
    constructor. }
  destruct (no_sort args) eqn:Ens.
  - exists sections, (dict_keys sections).
    split; [now apply build_rows_value|]. split; [exact Hk|].
    split; [unfold section_order; now rewrite Ens|].
    split; [apply render_parts_intersperse|].
    split; [discriminate|]. intros _. exact Hk.
  - exists sections,
      (stable_sort (fun k : scalar => k) scalar_ltb (dict_keys sections)).
    split; [now apply build_rows_value|]. split; [exact Hk|].
    split; [now apply section_order_sorted|].
    split; [apply render_parts_intersperse|].
    split; [|discriminate]. intros _. split.
    + rewrite <- Hk. apply stable_sort_perm.
    + apply strictly_sorted.
      * apply stable_sort_dom. exact Hd.
      * apply (Permutation_NoDup (stable_sort_perm _ _ _) Hn).
      * apply stable_sort_ordered with (dom := str_scalar_dom);
          [exact scalar_ltb_asym|exact scalar_ltb_cotrans|exact Hd].
Qed.

(* ================================================================= *)
(** ** Paths whose [methods] is no mapping *)

Section Skipping.
Context {U : Unicode}.

Lemma bind_assoc {A B C} (m : M A) (f : A -> M B) (g : B -> M C) :
  bind (bind m f) g = bind m (fun a => bind (f a) g).
Proof.
  destruct m as [tr [a|e]]; simpl; [|reflexivity].
  destruct (f a) as [tr1 [b|e]]; simpl; [|reflexivity].
  destruct (g b) as [tr2 r]. now rewrite app_assoc.
Qed.

Lemma for_each_app {A S} (body : S -> A -> M S) (l1 l2 : list A) (s : S) :
  for_each body (l1 ++ l2) s
  = bind (for_each body l1 s) (for_each body l2).
Proof.
  revert s. induction l1 as [|x l1 IH]; intro s; simpl.
  - now destruct (for_each body l2 s).
  - rewrite bind_assoc.
    destruct (body s x) as [tr [s'|e]]; simpl; [|reflexivity].
    now rewrite IH.
Qed.


Lemma render_and_write_load (w : World) (v : yval) (args : Args)
    (sections : Sections) :
  render_and_write (load_instead w v) args sections
  = render_and_write w args sections.
Proof. reflexivity. Qed.
End Skipping.




(* ================================================================= *)
(** ** Rendering a section *)

Section Rendering.
Context {U : Unicode}.

Lemma header_line_labels : header_line = table_row column_labels.
Proof. reflexivity. Qed.

Lemma optional_cell_wrapped (v : yval) :
  str_or_none v = true -> optional_cell v = Ok (wrapped_if_nonempty v).
Proof.
  destruct v as [[| | |s]| |]; try discriminate; intros _.
  - reflexivity.
  - destruct s as [|c s]; [reflexivity|].
    unfold optional_cell, wrapped_if_nonempty, wrapped. simpl truthy.
    cbn [bind_r sanitize_code_span].
    now rewrite replace_backticks_map.
Qed.

Lemma render_row_cells (r : Row) :
  well_typed r -> render_row r = Ok (table_row (cells r)).
Proof.
  intros [Hp [Ho [He [Hc [s Hn]]]]]. unfold render_row.
  rewrite (optional_cell_wrapped _ Ho), (optional_cell_wrapped _ He),
    (optional_cell_wrapped _ Hc).
  unfold cells, path_str. rewrite Hn.
  destruct (path r) as [| | |p]; try discriminate.
  cbn [bind_r sanitize_code_span VStr].
  rewrite !replace_backticks_map.
  assert (Hnotes : py_str (py_or (VStr s) (VStr [])) = s).
  { destruct s; reflexivity. }
  rewrite Hnotes. f_equal.
  assert (Hloc : match locations r with
                 | Some l => if is_empty l then [] else code_span l
                 | None => []
                 end = locations_cell (locations r)).
  { destruct (locations r) as [[|c l]|]; reflexivity. }
  rewrite Hloc.
  unfold table_row, wrapped, notes_cell, bool_to_yesno, yes_no, VBool.
  cbn [join truthy VStr]. rewrite <- !app_assoc. reflexivity.
Qed.

Lemma render_rows_lines (rows : list Row) :
  Forall well_typed rows ->
  forall lines,
    for_each_r
      (fun lines r => line <-r render_row r ;; Ok (lines ++ [line]))
      rows lines
    = Ok (lines ++ map (fun r => table_row (cells r)) rows).
Proof.
  induction 1 as [|r rows Hr Hrows IH]; intro lines; simpl.
  - now rewrite app_nil_r.
  - rewrite (render_row_cells Hr). simpl. rewrite IH.
    now rewrite <- app_assoc.
Qed.

Lemma well_typed_string_path (rows : list Row) :
  Forall well_typed rows -> Forall string_path rows.
Proof. apply Forall_impl. now intros r [H _]. Qed.
End Rendering.

(** C9 (amended): for a section whose rows are typed as the data model
    says, the renderer gives the heading, an empty line, the header
    with the nine labels Path, Method, Region-aware, Absolute, Owner,
    Endpoint Name, Class (in backend), Locations used (in CLI), Notes,
    the delimiter, and one line per sorted row with the cells: path and
    method wrapped, region-aware and absolute as Yes or No, owner,
    endpoint name and class wrapped when not empty and empty
    otherwise, locations wrapped when present and not empty and empty
    otherwise, and the notes as they are. *)
Theorem render_section_spec (U : Unicode) (section : scalar)
    (rows : list Row) :
  Forall well_typed rows ->
  exists rows_sorted,
    sort_rows rows = Ok rows_sorted
    /\ render_section section rows
       = Ok (join newline
               ([lit "### " ++ str_scalar section; [];
                 table_row column_labels; delimiter_line]
                ++ map (fun r => table_row (cells r)) rows_sorted))
    /\ List.length column_labels = 9%nat
    /\ Forall (fun r => List.length (cells r) = 9%nat) rows_sorted.
Proof.
  intro H. pose proof (well_typed_string_path H) as Hs.
  exists (stable_sort row_key key_ltb rows).
  assert (Hw : Forall well_typed (stable_sort row_key key_ltb rows)).
  { now apply stable_sort_dom. }
  split; [now apply sort_rows_ok|].
  split; [|split; [reflexivity|]].
  - unfold render_section. rewrite (sort_rows_ok Hs).
    cbn [bind_r]. rewrite (render_rows_lines Hw). reflexivity.
  - rewrite Forall_forall. reflexivity.
Qed.

(** C9 (what fails): locations that are present and empty, as the
    normaliser returns them for the empty string, give an empty cell
    and no inline code. *)
Lemma empty_locations_not_wrapped :
  normalize_locations (U := AsciiOnly) (VStr []) = Some []
  /\ locations empty_locations_row = Some []
  /\ render_row (U := AsciiOnly) empty_locations_row
     = Ok (lit "| `/a` | `GET` | No | No |  |  |  |  |  |").
Proof. repeat split. Qed.

(* ================================================================= *)
(** ** The order of the sections in the output *)

Section SectionsOutput.
Context {U : Unicode}.

Lemma for_each_r_lines (rows : list Row) :
  forall lines ls,
    for_each_r (fun lines r => line <-r render_row r ;; Ok (lines ++ [line]))
      rows lines = Ok ls ->
    exists more, ls = lines ++ more.
Proof.
  induction rows as [|r rows IH]; intros lines ls; cbn [for_each_r].
  - intro H. injection H as <-. exists []. now rewrite app_nil_r.
  - destruct (render_row r) as [line|e]; cbn [bind_r]; [|discriminate].
    intro H. destruct (IH _ _ H) as [more ->].
    exists (line :: more). now rewrite <- app_assoc.
Qed.

Lemma render_section_headed (section : scalar) (rows : list Row) (md : pystr) :
  render_section section rows = Ok md -> headed section md.
Proof.
  unfold render_section, headed.
  destruct (sort_rows rows) as [rs|e]; cbn [bind_r]; [|discriminate].
  destruct (for_each_r _ rs _) as [ls|e] eqn:E; cbn [bind_r]; [|discriminate].
  destruct (for_each_r_lines _ _ E) as [more ->].
  intro H. injection H as <-.
  exists (newline
          ++ join newline ([] :: header_line :: delimiter_line :: more)).
  reflexivity.
Qed.

Lemma render_named_headed (sections : Sections) (k : scalar) (md : pystr) :
  render_named sections k = Ok md -> headed k md.
Proof.
  unfold render_named. destruct (getitem sections k); cbn [bind_r];
    [apply render_section_headed|discriminate].
Qed.

Lemma map_r_headed (sections : Sections) (names : list scalar) :
  forall mds, map_r (render_named sections) names = Ok mds ->
              Forall2 headed names mds.
Proof.
  induction names as [|k names IH]; intros mds; cbn [map_r].
  - intro H. injection H as <-. constructor.
  - destruct (render_named sections k) as [md|e] eqn:E; cbn [bind_r];
      [|discriminate].
    destruct (map_r (render_named sections) names) as [mds0|e]; cbn [bind_r];
      [|discriminate].
    intro H. injection H as <-. constructor; [|now apply IH].
    now apply (render_named_headed sections).
Qed.

Lemma render_section_well_typed (section : scalar) (rows : list Row) :
  Forall well_typed rows -> exists md, render_section section rows = Ok md.
Proof.
  intro H. pose proof (well_typed_string_path H) as Hs.
  unfold render_section. rewrite (sort_rows_ok Hs). cbn [bind_r].
  rewrite render_rows_lines by now apply stable_sort_dom.
  cbn. eauto.
Qed.

Lemma map_r_ok {A B} (f : A -> result B) (l : list A) :
  (forall x, In x l -> exists y, f x = Ok y) -> exists ys, map_r f l = Ok ys.
Proof.
  induction l as [|x l IH]; intro H; cbn [map_r]; [eauto|].
  destruct (H x (or_introl eq_refl)) as [y ->]. cbn [bind_r].
  destruct IH as [ys ->]; [intros x0 Hx0; apply H; now right|].
  cbn. eauto.
Qed.

Lemma dict_find_present {V} (d : dict V) (k : scalar) :
  In k (dict_keys d) -> exists v, dict_find d k = Some v.
Proof.
  induction d as [|[k0 v0] d IH]; cbn; [contradiction|].
  intros [<-|H].
  - rewrite py_eqb_refl. eauto.
  - destruct (py_eqb k0 k); eauto.
Qed.

(** The tables of the sections of a document whose rows are typed as
    the data model says can all be rendered. *)
Lemma render_named_well_typed (pairs : list (yval * Row)) (k : scalar) :
  Forall (fun sr : yval * Row => well_typed (snd sr)) pairs ->
  In k (dict_keys (group (keyed pairs) [])) ->
  exists md, render_named (group (keyed pairs) []) k = Ok md.
Proof.
  intros Hw Hk. unfold render_named, getitem.
  pose proof (group_rows_in (keyed pairs) [] k) as Hrows.
  unfold rows_in at 1 in Hrows.
  destruct (dict_find_present (group (keyed pairs) []) k Hk) as [rows Hf].
  rewrite Hf in *. cbn [bind_r]. apply render_section_well_typed.
  rewrite Hrows. cbn [rows_in dict_find app].
  rewrite Forall_forall in *. intros r Hr.
  apply in_map_iff in Hr. destruct Hr as [[k0 r0] [<- Hin]].
  apply filter_In in Hin. destruct Hin as [Hin _].
  unfold keyed in Hin. apply in_map_iff in Hin.
  destruct Hin as [sr [E Hsr]]. injection E as _ <-. now apply Hw.
Qed.
End SectionsOutput.

(** C7: for a run that reads a valid document whose section names are
    strings, the text written is the tables of the sections, each
    beginning with the heading of its section, one after the other in
    the order of a list of the section names: without the no-sort flag
    this list is in strictly increasing order, with the flag it is in
    the order in which the rows of the document first reach the
    sections.  The tables can all be rendered when the rows are typed
    as the data model says. *)
Theorem section_order_spec (U : Unicode) (w : World) (args : Args)
    (stream : pystr) (doc : dict yval) :
  read_input w args = Ok stream ->
  safe_load w stream = Ok (Map doc) ->
  valid_document doc = true ->
  Forall str_scalar_dom (section_names_of doc) ->
  exists sections names,
    value (build_rows doc) = Ok sections
    /\ dict_keys sections = first_seen (section_names_of doc)
    /\ section_order args sections = Ok names
    /\ render_parts sections names
       = (mds <-r map_r (render_named sections) names ;;
          Ok (intersperse [] mds))
    /\ (no_sort args = false ->
          Permutation (first_seen (section_names_of doc)) names
          /\ StronglySorted (fun a b => scalar_ltb a b = true) names)
    /\ (no_sort args = true -> names = first_seen (section_names_of doc))
    /\ (forall mds,
          map_r (render_named sections) names = Ok mds ->
          Forall2 headed names mds
          /\ written (events (main w args))
             = [join table_separator mds ++ newline])
    /\ (Forall (fun sr : yval * Row => well_typed (snd sr))
               (document_pairs doc) ->
        exists mds, map_r (render_named sections) names = Ok mds).
Proof.
  intros Hr Hl Hv Hstr.
  destruct (section_order_names U doc args Hv Hstr)
    as [sections [names [H1 [H2 [H3 [H4 [H5 H6]]]]]]].
  exists sections, names.
  repeat (split; [assumption|]).
  assert (Hp : parse_yaml (safe_load w) stream = Ok doc).
  { unfold parse_yaml. now rewrite Hl. }
  assert (Hb : build_rows doc = (events (build_rows doc), Ok sections)).
  { destruct (build_rows doc) as [tr r]. unfold value, events in *.
    cbn [fst snd] in *. now subst r. }
  split.
  - intros mds Hm. split; [now apply (map_r_headed sections)|].
    apply (document_text w args Hr Hp Hb H3 Hm).
  - intro Hw.
    assert (Hs : sections = group (keyed (document_pairs doc)) []).
    { rewrite (build_rows_value doc Hv) in H1. now injection H1. }
    assert (Hnames : forall k, In k names -> In k (dict_keys sections)).
    { intros k Hk. rewrite H2. destruct (no_sort args) eqn:En.
      - now rewrite <- (H6 eq_refl).
      - destruct (H5 eq_refl) as [Hperm _].
        now apply (Permutation_in _ (Permutation_sym Hperm)). }
    apply map_r_ok. intros k Hk. rewrite Hs.
    apply render_named_well_typed; [exact Hw|].
    rewrite <- Hs. now apply Hnames.
Qed.

Lemma section_order_witness :
  exists text,
    written (events (main (U := AsciiOnly) (world_of (Map sample_doc))
                       (stdio true)))
    = [text]
    /\ exists md_a md_u md_z,
         headed (K "Alpha") md_a /\ headed (K "Uncategorized") md_u
         /\ headed (K "Zed") md_z
         /\ text = join table_separator [md_a; md_u; md_z] ++ newline.
Proof.
  assert (H : Forall str_scalar_dom (section_names_of (U := AsciiOnly) sample_doc))
    by (vm_compute; repeat constructor).
  destruct (@section_order_spec AsciiOnly (world_of (Map sample_doc))
              (stdio true) [] sample_doc eq_refl eq_refl eq_refl H)
    as [sections [names [H1 [_ [H2 [_ [_ [_ [H3 H4]]]]]]]]].
  assert (E1 : sections = sample_sections).
  { assert (E : value (build_rows (U := AsciiOnly) sample_doc)
                = Ok sample_sections) by reflexivity.
    rewrite E in H1. now injection H1. }
  subst sections.
  assert (E2 : names = [K "Alpha"; K "Uncategorized"; K "Zed"]).
  { assert (E : section_order (stdio true) sample_sections
                = Ok [K "Alpha"; K "Uncategorized"; K "Zed"]) by reflexivity.
    rewrite E in H2. now injection H2. }
  subst names.
  destruct H4 as [mds Hm].
  { vm_compute. repeat econstructor. }
  destruct (H3 mds Hm) as [Hh Hw].
  exists (join table_separator mds ++ newline). split; [exact Hw|].
  inversion Hh as [|? md_a ? l1 Ha Hh1]; subst.
  inversion Hh1 as [|? md_u ? l2 Hu Hh2]; subst.
  inversion Hh2 as [|? md_z ? l3 Hz Hh3]; subst.
  inversion Hh3; subst.
  exists md_a, md_u, md_z. auto.
Defined.

(* ================================================================= *)
(** ** Scenarios of the specification, run on the model *)

(** The first scenario: one section [Uncategorized] with the rows GET
    and POST of [/a], in this order although POST comes first in the
    document. *)
Example scenario_get_before_post :
  value (build_rows (U := AsciiOnly) [hd (K "", VNone) sample_doc])
  = Ok [(K "Uncategorized",
         [{| path := K "/a"; method := lit "POST"; region_aware := false;
             absolute := false; owner := VNone; endpoint_name := VNone;
             backend_class := VNone; locations := None;
             notes := VStr (lit "x") |};
          plain_row "/a" "GET"])]
  /\ render_section (U := AsciiOnly) (K "Uncategorized")
       [{| path := K "/a"; method := lit "POST"; region_aware := false;
           absolute := false; owner := VNone; endpoint_name := VNone;
           backend_class := VNone; locations := None;
           notes := VStr (lit "x") |};
        plain_row "/a" "GET"]
     = Ok (join newline
             [lit "### Uncategorized"; []; header_line; delimiter_line;
              lit "| `/a` | `GET` | No | No |  |  |  |  |  |";
              lit "| `/a` | `POST` | No | No |  |  |  |  | x |"]).
Proof. split; reflexivity. Qed.

Example scenario_sample_rows_sorted :
  sort_rows (U := AsciiOnly) sample_rows
  = Ok [plain_row "/a" "GET"; plain_row "/a" "POST"; plain_row "/a" "TRACE";
        plain_row "/b" "GET"].
Proof. reflexivity. Qed.

(** The sample document: three sections in alphabetical order, one
    warning, status 0. *)
Example scenario_sample_doc :
  exists text,
    main (U := AsciiOnly) (world_of (Map sample_doc)) (stdio true)
    = ([EStderr (WarnMethodsNotMapping (K "/d")); EWrite (lit "-") text],
       Ok 0%Z)
  /\ section_order (stdio true)
       (group (keyed (document_pairs (U := AsciiOnly) sample_doc)) [])
     = Ok [K "Alpha"; K "Uncategorized"; K "Zed"]
  /\ section_order (stdio false)
       (group (keyed (document_pairs (U := AsciiOnly) sample_doc)) [])
     = Ok [K "Uncategorized"; K "Zed"; K "Alpha"].
Proof. eexists. split; [vm_compute; reflexivity|split; reflexivity]. Qed.

(** A section name that cannot be a key, and section names of two
    types: the exception leaves [main]. *)
Example scenario_unhashable_section :
  value (build_rows (U := AsciiOnly)
           [(K "/a", Map [(K "section", Seq [VStr (lit "x")]);
                          (K "methods", Map [(K "get", Map [])])])])
  = Raise TypeError.
Proof. reflexivity. Qed.

Example scenario_mixed_section_names :
  value (main (U := AsciiOnly)
           (world_of
              (Map [(K "/a", Map [(K "section", Scalar (SInt 5));
                                  (K "methods", Map [(K "get", Map [])])]);
                    (K "/b", Map [(K "methods", Map [(K "get", Map [])])])]))
           (stdio true))
  = Raise TypeError.
Proof. reflexivity. Qed.

Example scenario_str_of_scalars :
  str_scalar (SInt 0) = lit "0" /\ str_scalar (SInt (-12)) = lit "-12"
  /\ str_scalar (SBool true) = lit "True".
Proof. repeat split. Qed.

(* ================================================================= *)
(** ** The theorems at concrete documents *)

Lemma row_order_witness :
  exists rows_sorted,
    sort_rows (U := AsciiOnly) sample_rows = Ok rows_sorted
    /\ Permutation sample_rows rows_sorted
    /\ StronglySorted (fun a b => row_before (U := AsciiOnly) b a = false)
         rows_sorted.
Proof.
  assert (H : Forall string_path sample_rows) by (repeat constructor).
  destruct (@row_order AsciiOnly sample_rows H) as [rs [H1 [H2 [H3 _]]]].
  exists rs. auto.
Defined.

Lemma rows_partition_witness :
  exists sections,
    value (build_rows (U := AsciiOnly) sample_doc) = Ok sections
    /\ distinct_keys sections
    /\ row_count sections
       = List.length (document_pairs (U := AsciiOnly) sample_doc).
Proof.
  destruct (@rows_partition AsciiOnly sample_doc eq_refl)
    as [sections [H1 [_ [H2 [_ H3]]]]].
  exists sections. auto.
Defined.

Lemma render_section_witness :
  exists rows_sorted,
    sort_rows (U := AsciiOnly) sample_rows = Ok rows_sorted
    /\ render_section (U := AsciiOnly) (K "Alpha") sample_rows
       = Ok (join newline
               ([lit "### " ++ str_scalar (K "Alpha"); [];
                 table_row column_labels; delimiter_line]
                ++ map (fun r => table_row (cells r)) rows_sorted)).
Proof.
  assert (H : Forall well_typed sample_rows).
  { repeat constructor; exists []; reflexivity. }
  destruct (@render_section_spec AsciiOnly (K "Alpha") sample_rows H)
    as [rs [H1 [H2 _]]].
  exists rs. auto.
Defined.

(* ================================================================= *)
(** ** Further properties: the sort key of a method *)

Lemma nth_index (x : pystr) (xs : list pystr) :
  mem x xs = true -> nth (PyStr.index x xs) xs [] = x.
Proof.
  unfold mem. induction xs as [|y xs IH]; simpl; [discriminate|].
  destruct (PyStr.eqb x y) eqn:E; simpl.
  - intros _. symmetry. now apply str_eqb_eq.
  - exact IH.
Qed.

(** X1: two methods get the same sort key exactly when their upper-case
    forms are equal; the first component of a key is a position of the
    priority list for a listed method, whose entry there is the
    upper-case form, and the length of the list for any other
    method. *)
Theorem method_sort_key_faithful (U : Unicode) :
  (forall m1 m2,
     method_sort_key m1 = method_sort_key m2 <-> str_upper m1 = str_upper m2)
  /\ (forall m,
        mem (str_upper m) METHOD_ORDER = true ->
        (fst (method_sort_key m) < List.length METHOD_ORDER)%nat
        /\ nth (fst (method_sort_key m)) METHOD_ORDER [] = str_upper m
        /\ snd (method_sort_key m) = [])
  /\ (forall m,
        mem (str_upper m) METHOD_ORDER = false ->
        method_sort_key m = (List.length METHOD_ORDER, str_upper m)).
Proof.
  assert (Hin : forall m,
             mem (str_upper m) METHOD_ORDER = true ->
             (fst (method_sort_key m) < List.length METHOD_ORDER)%nat
             /\ nth (fst (method_sort_key m)) METHOD_ORDER [] = str_upper m
             /\ snd (method_sort_key m) = []).
  { intros m H. unfold method_sort_key. rewrite H. cbn [fst snd].
    split; [now apply index_lt_length|]. split; [now apply nth_index|reflexivity]. }
  assert (Hout : forall m,
             mem (str_upper m) METHOD_ORDER = false ->
             method_sort_key m = (List.length METHOD_ORDER, str_upper m)).
  { intros m H. unfold method_sort_key. now rewrite H. }
  split; [|split; assumption].
  intros m1 m2. split.
  - intro E.
    destruct (mem (str_upper m1) METHOD_ORDER) eqn:E1,
             (mem (str_upper m2) METHOD_ORDER) eqn:E2.
    + destruct (Hin m1 E1) as [_ [H1 _]], (Hin m2 E2) as [_ [H2 _]].
      rewrite <- H1, <- H2. now rewrite E.
    + destruct (Hin m1 E1) as [H1 _]. rewrite E, (Hout m2 E2) in H1.
      simpl in H1. lia.
    + destruct (Hin m2 E2) as [H2 _]. rewrite <- E, (Hout m1 E1) in H2.
      simpl in H2. lia.
    + rewrite (Hout m1 E1), (Hout m2 E2) in E. congruence.
  - intro E. unfold method_sort_key. now rewrite E.
Qed.

(* ================================================================= *)
(** ** Further properties: the sanitizer and the locations *)

Lemma replace_backticks_fixed (s : pystr) :
  replace_backticks s = s <-> ~ In backtick s.
Proof.
  rewrite replace_backticks_map. induction s as [|c s IH]; simpl.
  - tauto.
  - split.
    + intro H. injection H as Hc Hs. intros [Hb|Hb].
      * subst c. discriminate.
      * now apply IH.
    + intro H. f_equal.
      * unfold sanitize_char. destruct (c =? backtick) eqn:E; [|reflexivity].
        apply N.eqb_eq in E. subst c. exfalso. apply H. now left.
      * apply IH. intro Hb. apply H. now right.
Qed.

(** X2: on strings the sanitizer keeps the length, changes nothing
    exactly when there is no backtick, and the sanitized concatenation
    of two strings is the concatenation of the sanitized strings. *)
Theorem sanitize_code_span_structure (s t : pystr) :
  exists rs rt,
    sanitize_code_span (VStr s) = Ok rs
    /\ sanitize_code_span (VStr t) = Ok rt
    /\ List.length rs = List.length s
    /\ (rs = s <-> ~ In backtick s)
    /\ sanitize_code_span (VStr (s ++ t)) = Ok (rs ++ rt).
Proof.
  exists (replace_backticks s), (replace_backticks t).
  split; [reflexivity|]. split; [reflexivity|].
  split; [rewrite replace_backticks_map; apply length_map|].
  split; [apply replace_backticks_fixed|].
  simpl. f_equal. rewrite !replace_backticks_map. apply map_app.
Qed.

Section LocationsMore.
Context {U : Unicode}.

Lemma join_not_in (c : N) (sep : pystr) (parts : list pystr) :
  ~ In c sep -> Forall (fun p => ~ In c p) parts -> ~ In c (join sep parts).
Proof.
  intros Hsep. induction 1 as [|p parts Hp Hparts IH]; [simpl; tauto|].
  destruct parts as [|q parts]; [exact Hp|].
  rewrite join_cons by discriminate.
  intro H. apply in_app_or in H. destruct H as [H|H]; [tauto|].
  apply in_app_or in H. tauto.
Qed.

Lemma replace_backticks_clean (s : pystr) : ~ In backtick (replace_backticks s).
Proof.
  rewrite replace_backticks_map, in_map_iff.
  intros [c [Hc _]]. now apply sanitize_char_not_backtick in Hc.
Qed.

Lemma filter_non_null_idem (l : list yval) :
  filter non_null (filter non_null l) = filter non_null l.
Proof.
  induction l as [|p l IH]; simpl; [reflexivity|].
  destruct (non_null p) eqn:E; simpl; rewrite ?E, IH; reflexivity.
Qed.

Lemma filter_non_null_nil (l : list yval) :
  filter non_null l = [] <-> all_null l = true.
Proof.
  unfold all_null, non_null. induction l as [|p l IH]; simpl; [tauto|].
  destruct (is_none p); simpl; [exact IH|]. split; discriminate.
Qed.
End LocationsMore.

(** X3: [normalize_locations] gives no value exactly for null and for a
    sequence that holds nothing but nulls (the empty one among them),
    and the nulls of a sequence do not count: the sequence without
    them gives the same result. *)
Theorem normalize_locations_absent (U : Unicode) :
  (forall v,
     normalize_locations v = None
     <-> v = VNone \/ exists l, v = Seq l /\ all_null l = true)
  /\ (forall l,
        normalize_locations (Seq l)
        = normalize_locations (Seq (filter non_null l))).
Proof.
  split.
  - intro v. destruct v as [[| | |s]|l|d].
    + split; auto.
    + split; [discriminate|]. intros [H|[l [H _]]]; discriminate.
    + split; [discriminate|]. intros [H|[l [H _]]]; discriminate.
    + split; [discriminate|]. intros [H|[l [H _]]]; discriminate.
    + rewrite normalize_locations_seq. unfold joined_or_absent.
      fold non_null. pose proof (filter_non_null_nil l) as Hn.
      destruct (filter non_null l) as [|p ps] eqn:E; simpl.
      * split; [|reflexivity]. intros _. right. exists l.
        split; [reflexivity|]. now apply Hn.
      * split; [discriminate|].
        intros [H|[l0 [H H0]]]; [discriminate|].
        injection H as <-. apply Hn in H0. discriminate.
    + split; [discriminate|]. intros [H|[l [H _]]]; discriminate.
  - intro l. rewrite !normalize_locations_seq. fold non_null.
    now rewrite filter_non_null_idem.
Qed.

Lemma normalize_locations_no_backtick {U : Unicode} (v : yval) (r : pystr) :
  normalize_locations v = Some r -> ~ In backtick r.
Proof.
  destruct v as [[| | |s]|l|d].
  - discriminate.
  - intro H. injection H as <-. apply replace_backticks_clean.
  - intro H. injection H as <-. apply replace_backticks_clean.
  - intro H. injection H as <-. apply replace_backticks_clean.
  - rewrite normalize_locations_seq. unfold joined_or_absent.
    destruct (Nat.eqb _ _); [discriminate|].
    intro H. injection H as <-. apply join_not_in.
    + vm_compute. intuition discriminate.
    + rewrite Forall_forall. intros p Hp. apply in_map_iff in Hp.
      destruct Hp as [x [<- _]]. apply replace_backticks_clean.
  - intro H. injection H as <-. apply replace_backticks_clean.
Qed.

(** X4: whatever the input, the value [normalize_locations] returns
    holds no backtick, so that it can stand between backticks. *)
Theorem normalize_locations_clean (U : Unicode) (v : yval) (r : pystr) :
  normalize_locations v = Some r -> ~ In backtick r.
Proof. apply normalize_locations_no_backtick. Qed.

Lemma normalize_locations_clean_witness :
  normalize_locations (U := AsciiOnly) (Seq [VStr (lit "a`b"); VStr (lit "c")])
  = Some (lit "a" ++ [prime] ++ lit "b, c")
  /\ ~ In backtick (lit "a" ++ [prime] ++ lit "b, c").
Proof.
  split; [reflexivity|].
  apply (@normalize_locations_clean AsciiOnly
           (Seq [VStr (lit "a`b"); VStr (lit "c")])).
  reflexivity.
Defined.

(* ================================================================= *)
(** ** Further properties: what [build_rows] skips *)

Section BuildRowsMore.
Context {U : Unicode}.

Lemma path_info_same_fields (path : scalar) (d d' : dict yval) :
  same_but_methods d d' ->
  fst (path_info path (Map d')) = fst (path_info path (Map d)).
Proof.
  intro H. unfold path_info, dict_get, dict_get_default. cbn [fst].
  rewrite !H by reflexivity. reflexivity.
Qed.

(** The loop a path with a mapping as [methods] runs. *)
Lemma build_path_methods (sections : Sections) (path : scalar)
    (d ms : dict yval) :
  dict_find d (K "methods") = Some (Map ms) ->
  build_path sections (path, Map d)
  = for_each (build_method (fst (path_info path (Map d)))) ms sections.
Proof.
  intro Hf. unfold build_path.
  pose proof (path_info_methods path (Map d)) as Hm.
  destruct (path_info path (Map d)) as [p methods]. cbn [fst snd] in *.
  subst methods. unfold dict_get, dict_get_default. rewrite Hf.
  destruct ms; reflexivity.
Qed.

Lemma build_path_no_methods (sections : Sections) (path : scalar) (meta : yval) :
  no_methods meta = true -> build_path sections (path, meta) = ret sections.
Proof.
  intro H. unfold build_path.
  pose proof (path_info_methods path meta) as Hm.
  destruct (path_info path meta) as [p methods]. cbn [snd] in Hm.
  subst methods. destruct meta as [a|l|d]; try reflexivity.
  unfold no_methods in H. apply negb_true_iff in H.
  unfold py_or. now rewrite H.
Qed.

Lemma bind_ret_l {A B} (a : A) (f : A -> M B) : bind (ret a) f = f a.
Proof. unfold bind, ret. now destruct (f a). Qed.

Lemma for_each_null_key (p : PathInfo) (mpre mpost : dict yval) (v : yval)
    (s : Sections) :
  for_each (build_method p) (mpre ++ (SNone, v) :: mpost) s
  = for_each (build_method p) (mpre ++ mpost) s.
Proof.
  rewrite !for_each_app.
  destruct (for_each (build_method p) mpre s) as [tr [s1|e]]; [|reflexivity].
  cbn [bind for_each build_method]. fold (ret s1).
  now rewrite bind_ret_l.
Qed.
End BuildRowsMore.

(** X5: a method whose key is not null and whose metadata is no mapping
    is skipped with its warning: the path files the rows of the methods
    before it, prints the warning with the upper-case method, and goes
    on with the methods after it; the sections it returns are those of
    the path without this method. *)
Theorem skip_method_meta_not_mapping (U : Unicode) (sections : Sections)
    (path k : scalar) (d d' mpre mpost : dict yval) (v : yval) :
  dict_find d (K "methods") = Some (Map (mpre ++ (k, v) :: mpost)) ->
  dict_find d' (K "methods") = Some (Map (mpre ++ mpost)) ->
  same_but_methods d d' ->
  py_eqb k SNone = false -> is_dict v = false ->
  build_path sections (path, Map d)
  = (s1 <- for_each (build_method (fst (path_info path (Map d)))) mpre
             sections ;;
     emit (EStderr (WarnMethodMetaNotMapping path
                      (str_upper (str_scalar k)))) ;;;
     for_each (build_method (fst (path_info path (Map d)))) mpost s1)
  /\ value (build_path sections (path, Map d))
     = value (build_path sections (path, Map d')).
Proof.
  intros Hf Hf' Hs Hk Hv.
  rewrite (build_path_methods _ _ _ Hf), (build_path_methods _ _ _ Hf').
  rewrite (path_info_same_fields path Hs).
  set (p := fst (path_info path (Map d))).
  assert (Hp : pi_path p = path).
  { unfold p, path_info. reflexivity. }
  rewrite !for_each_app.
  destruct (for_each (build_method p) mpre sections) as [tr [s1|e]];
    [|split; reflexivity].
  assert (Hb : build_method p s1 (k, v)
               = ([EStderr (WarnMethodMetaNotMapping path
                              (str_upper (str_scalar k)))], Ok s1)).
  { unfold build_method. rewrite Hp.
    destruct k; try discriminate; destruct v; try discriminate; reflexivity. }
  cbn [bind for_each]. rewrite Hb. cbn [bind emit].
  destruct (for_each (build_method p) mpost s1) as [tr' r]. split; reflexivity.
Qed.

Lemma skip_method_meta_not_mapping_witness :
  build_path (U := AsciiOnly) []
    (K "/a", Map (meta_with_methods ([get_method] ++ (K "put", VNone) :: [])))
  = ([EStderr (WarnMethodMetaNotMapping (K "/a") (lit "PUT"))],
     Ok [(K "S", [plain_row "/a" "GET"])]).
Proof.
  apply (@skip_method_meta_not_mapping AsciiOnly [] (K "/a") (K "put")
           (meta_with_methods ([get_method] ++ (K "put", VNone) :: []))
           (meta_with_methods ([get_method] ++ []))
           [get_method] [] VNone);
    try reflexivity.
  intros k Hk. rewrite py_eqb_sym in Hk.
  unfold meta_with_methods. cbn [dict_find]. rewrite Hk. reflexivity.
Defined.

(** X6: a path whose metadata is no mapping, or whose [methods] is
    absent or false in a condition, leaves no trace: [build_rows]
    returns, and prints, what it returns and prints for the document
    without the path. *)
Theorem path_without_methods (U : Unicode) (pre post : dict yval)
    (path : scalar) (meta : yval) :
  no_methods meta = true ->
  build_rows (pre ++ (path, meta) :: post) = build_rows (pre ++ post).
Proof.
  intro H. unfold build_rows. rewrite !for_each_app.
  destruct (for_each build_path pre []) as [tr [s|e]]; [|reflexivity].
  cbn [bind for_each]. rewrite (build_path_no_methods s path meta H).
  now rewrite bind_ret_l.
Qed.

Lemma path_without_methods_witness :
  build_rows (U := AsciiOnly)
    ([(K "/a", Map (meta_with_methods [get_method]))]
       ++ (K "/n", VNone) :: [])
  = build_rows (U := AsciiOnly)
      ([(K "/a", Map (meta_with_methods [get_method]))] ++ []).
Proof.
  apply (@path_without_methods AsciiOnly). reflexivity.
Defined.

(** X7: a method keyed by null is passed over without a word, whatever
    its metadata: the path files and prints what the path without this
    entry files and prints. *)
Theorem null_method_key_ignored (U : Unicode) (sections : Sections)
    (path : scalar) (d d' mpre mpost : dict yval) (v : yval) :
  dict_find d (K "methods") = Some (Map (mpre ++ (SNone, v) :: mpost)) ->
  dict_find d' (K "methods") = Some (Map (mpre ++ mpost)) ->
  same_but_methods d d' ->
  build_path sections (path, Map d) = build_path sections (path, Map d').
Proof.
  intros Hf Hf' Hs.
  rewrite (build_path_methods _ _ _ Hf), (build_path_methods _ _ _ Hf').
  rewrite (path_info_same_fields path Hs).
  apply for_each_null_key.
Qed.

Lemma null_method_key_ignored_witness :
  build_path (U := AsciiOnly) []
    (K "/a", Map (meta_with_methods ([get_method] ++ (SNone, Map []) :: [])))
  = build_path (U := AsciiOnly) []
      (K "/a", Map (meta_with_methods ([get_method] ++ []))).
Proof.
  apply (@null_method_key_ignored AsciiOnly [] (K "/a")
           (meta_with_methods ([get_method] ++ (SNone, Map []) :: []))
           (meta_with_methods ([get_method] ++ []))
           [get_method] [] (Map []));
    try reflexivity.
  intros k Hk. rewrite py_eqb_sym in Hk.
  unfold meta_with_methods. cbn [dict_find]. rewrite Hk. reflexivity.
Defined.

(* ================================================================= *)
(** ** Further properties: section names that cannot be keys *)

Section Unhashable.
Context {U : Unicode}.

Lemma loop_unhashable (p : PathInfo) (ms : dict yval) :
  hashable (pi_section_name p) = None ->
  forall s,
    value (for_each (build_method p) ms s)
    = if existsb makes_row ms then Raise TypeError else Ok s.
Proof.
  intro Hh.
  assert (Hb : forall s m,
             value (build_method p s m)
             = if makes_row m then Raise TypeError else Ok s).
  { intros s [k v]. unfold build_method, makes_row. rewrite Hh.
    destruct k, v; reflexivity. }
  induction ms as [|m ms IH]; intro s; [reflexivity|].
  cbn [for_each existsb]. rewrite bind_value, Hb.
  destruct (makes_row m); [reflexivity|apply IH].
Qed.

Lemma build_path_unhashable (s : Sections) (path : scalar) (meta : yval) :
  hashable (resolved_section meta) = None ->
  value (build_path s (path, meta))
  = if yields_row meta then Raise TypeError else Ok s.
Proof.
  intro Hh. unfold yields_row, methods_mapping.
  destruct meta as [a|l|d]; [reflexivity|reflexivity|].
  destruct (dict_find d (K "methods")) as [v|] eqn:Hf.
  - destruct v as [a|l|ms].
    + unfold build_path.
      pose proof (path_info_methods path (Map d)) as Hm.
      destruct (path_info path (Map d)) as [p methods]. cbn [snd] in Hm.
      subst methods. unfold dict_get, dict_get_default, py_or. rewrite Hf.
      destruct (truthy (Scalar a)); reflexivity.
    + unfold build_path.
      pose proof (path_info_methods path (Map d)) as Hm.
      destruct (path_info path (Map d)) as [p methods]. cbn [snd] in Hm.
      subst methods. unfold dict_get, dict_get_default, py_or. rewrite Hf.
      destruct (truthy (Seq l)); reflexivity.
    + rewrite (build_path_methods _ _ _ Hf). apply loop_unhashable.
      now rewrite path_info_section.
  - rewrite build_path_no_methods; [reflexivity|].
    unfold no_methods, dict_get, dict_get_default. now rewrite Hf.
Qed.
End Unhashable.

(** X10: in a document whose paths are strings, whose method keys are
    strings or null and whose locations are typed as the data model
    says, a path whose section name is a list or a mapping raises
    [TypeError] when, and only when, one of its methods makes a row
    (a key that is not null with a mapping as metadata): then
    [build_rows] ends with [TypeError] as soon as it reaches the path;
    otherwise it returns what it returns for the document without the
    path. *)
Theorem unhashable_section (U : Unicode) (pre post : dict yval)
    (path : scalar) (meta : yval) :
  forallb typed_entry (pre ++ (path, meta) :: post) = true ->
  hashable (resolved_section meta) = None ->
  value (build_rows (pre ++ (path, meta) :: post))
  = if yields_row meta then then_raise (value (build_rows pre)) TypeError
    else value (build_rows (pre ++ post)).
Proof.
  intros _ Hh. unfold build_rows. rewrite !for_each_app, !bind_value.
  destruct (value (for_each build_path pre [])) as [s|e];
    [|now destruct (yields_row meta)].
  cbn [for_each then_raise]. rewrite bind_value.
  rewrite (build_path_unhashable s path meta Hh).
  now destruct (yields_row meta).
Qed.

Lemma unhashable_section_witness :
  value (build_rows (U := AsciiOnly) ([] ++ list_section_doc [get_method]))
  = Raise TypeError
  /\ value (build_rows (U := AsciiOnly)
              ([] ++ list_section_doc [(K "get", VNone)]))
     = Ok [].
Proof.
  split.
  - apply (@unhashable_section AsciiOnly [] [] (K "/a")
             (Map [(K "section", Seq [VStr (lit "x")]);
                   (K "methods", Map [get_method])]));
      reflexivity.
  - apply (@unhashable_section AsciiOnly [] [] (K "/a")
             (Map [(K "section", Seq [VStr (lit "x")]);
                   (K "methods", Map [(K "get", VNone)])]));
      reflexivity.
Defined.

(* ================================================================= *)
(** ** Further properties: what [build_rows] keeps true *)

Section BuildRowsInvariant.
Context {U : Unicode}.

Lemma for_each_inv {A S} (P : S -> Prop) (body : S -> A -> M S)
    (items : list A) :
  (forall s x s', In x items -> P s -> value (body s x) = Ok s' -> P s') ->
  forall s s', P s -> value (for_each body items s) = Ok s' -> P s'.
Proof.
  induction items as [|x items IH]; intros Hb s s' Hs.
  - cbn. intro H. injection H as <-. exact Hs.
  - cbn [for_each]. rewrite bind_value.
    destruct (value (body s x)) as [s1|e] eqn:E; [|discriminate].
    apply IH.
    + intros s0 y s0' Hy. apply Hb. now right.
    + apply (Hb s x s1); auto. now left.
Qed.

Lemma resolved_section_truthy (meta : yval) :
  truthy (resolved_section meta) = true.
Proof.
  unfold resolved_section, py_or.
  destruct (truthy match meta with
                   | Map d => dict_get d (K "section")
                   | _ => VNone
                   end) eqn:E; [exact E|reflexivity].
Qed.

Lemma path_methods_cases (path : scalar) (meta : yval) (ms : dict yval) :
  snd (path_info path meta) = Map ms ->
  ms = [] \/ methods_mapping meta = Some ms.
Proof.
  rewrite path_info_methods. unfold methods_mapping.
  destruct meta as [a|l|d].
  - intro H. injection H as <-. now left.
  - intro H. injection H as <-. now left.
  - unfold dict_get, dict_get_default, py_or.
    destruct (dict_find d (K "methods")) as [v|].
    + destruct v as [a|l|ms0].
      * destruct (truthy (Scalar a)); [discriminate|].
        intro H. injection H as <-. now left.
      * destruct (truthy (Seq l)); [discriminate|].
        intro H. injection H as <-. now left.
      * destruct (truthy (Map ms0)) eqn:E.
        -- intro H. injection H as <-. now right.
        -- destruct ms0; [|discriminate]. intro H. injection H as <-.
           now left.
    + cbn. intro H. injection H as <-. now left.
Qed.

Lemma row_of_built (doc : dict yval) (path : scalar) (meta : yval)
    (ms : dict yval) (k : scalar) (mm : dict yval) :
  In (path, meta) doc ->
  methods_mapping meta = Some ms ->
  In (k, Map mm) ms ->
  py_eqb k SNone = false ->
  built_row doc (row_of path meta k mm).
Proof.
  intros Hin Hms Hk Hn. unfold built_row. split; [|split].
  - exists path, meta, ms, k, mm.
    repeat (split; [assumption|]). split; [reflexivity|].
    split; [|reflexivity]. now destruct meta.
  - intros l. unfold row_of, make_row. cbn [locations].
    apply normalize_locations_no_backtick.
  - unfold row_of, make_row, py_or. cbn [notes].
    destruct (truthy (dict_get mm (K "notes"))) eqn:E; auto.
Qed.

Lemma setdefault_inv (doc : dict yval) (s : Sections) (k : scalar) (r : Row) :
  sections_inv doc s -> truthy (Scalar k) = true -> built_row doc r ->
  sections_inv doc (setdefault_append s k r).
Proof.
  intros [Hd Hf] Hk Hr. split; [now apply distinct_setdefault|].
  clear Hd. induction Hf as [|[k0 xs] s [H1 [H2 H3]] Hf IH]; cbn.
  - constructor; [|constructor]. cbn [fst snd].
    split; [exact Hk|]. split; [discriminate|].
    constructor; [exact Hr|constructor].
  - cbn [fst snd] in *. destruct (py_eqb k0 k); constructor; auto.
    cbn [fst snd]. split; [exact H1|]. split.
    + now destruct xs.
    + apply Forall_app. split; [exact H3|]. now constructor.
Qed.

Lemma build_method_inv (doc : dict yval) (path : scalar) (meta : yval)
    (ms : dict yval) (s s' : Sections) (m : scalar * yval) :
  In (path, meta) doc ->
  methods_mapping meta = Some ms ->
  In m ms ->
  sections_inv doc s ->
  value (build_method (fst (path_info path meta)) s m) = Ok s' ->
  sections_inv doc s'.
Proof.
  intros Hin Hms Hm Hs. destruct m as [k v]. unfold build_method.
  rewrite path_info_section.
  assert (Hsame : value (ret s) = Ok s' -> sections_inv doc s').
  { cbn. intro H. injection H as <-. exact Hs. }
  assert (Hrow : forall mm,
             v = Map mm -> py_eqb k SNone = false ->
             value match hashable (resolved_section meta) with
                   | Some k0 =>
                       ret (setdefault_append s k0
                              (make_row (fst (path_info path meta))
                                 (str_upper (str_scalar k)) mm))
                   | None => raise TypeError
                   end = Ok s' ->
             sections_inv doc s').
  { intros mm -> Hk. pose proof (resolved_section_truthy meta) as Ht.
    destruct (resolved_section meta) as [k0| |] eqn:E;
      cbn; try discriminate.
    intro H. injection H as <-.
    apply setdefault_inv; auto.
    now apply (@row_of_built doc path meta ms k mm). }
  destruct k; [exact Hsame| | |];
    (destruct v as [a|l|mm];
     [exact Hsame|exact Hsame|now apply (Hrow mm)]).
Qed.

Lemma build_path_inv (doc : dict yval) (s s' : Sections)
    (item : scalar * yval) :
  In item doc ->
  sections_inv doc s ->
  value (build_path s item) = Ok s' ->
  sections_inv doc s'.
Proof.
  intros Hin Hs. destruct item as [path meta]. unfold build_path.
  pose proof (path_methods_cases path meta) as Hcases.
  destruct (path_info path meta) as [p methods] eqn:E.
  cbn [snd] in Hcases.
  assert (Hsame : value (ret s) = Ok s' -> sections_inv doc s').
  { cbn. intro H. injection H as <-. exact Hs. }
  destruct methods as [a|l|ms]; [exact Hsame|exact Hsame|].
  destruct (Hcases ms eq_refl) as [->|Hms]; [exact Hsame|].
  apply for_each_inv; [|exact Hs].
  intros s0 m s0' Hm Hs0 Hv.
  apply (@build_method_inv doc path meta ms s0 s0' m Hin Hms Hm Hs0).
  now rewrite E.
Qed.

Lemma build_rows_inv (doc : dict yval) (sections : Sections) :
  value (build_rows doc) = Ok sections -> sections_inv doc sections.
Proof.
  unfold build_rows. apply for_each_inv.
  - intros s x s' Hx. now apply build_path_inv.
  - split; constructor.
Qed.
End BuildRowsInvariant.

(** X8: whatever the document, the sections [build_rows] returns have
    pairwise different names, no section is empty, and no name is
    false in a condition (null, false, zero or the empty string). *)
Theorem sections_well_formed (U : Unicode) (doc : dict yval)
    (sections : Sections) :
  value (build_rows doc) = Ok sections ->
  distinct_keys sections
  /\ forall k rows, In (k, rows) sections ->
                    truthy (Scalar k) = true /\ rows <> [].
Proof.
  intro H. destruct (build_rows_inv doc H) as [Hd Hf]. split; [exact Hd|].
  intros k rows Hin. rewrite Forall_forall in Hf.
  destruct (Hf _ Hin) as [H1 [H2 _]]. auto.
Qed.

Lemma sections_well_formed_witness :
  distinct_keys sample_sections
  /\ forall k rows, In (k, rows) sample_sections ->
                    truthy (Scalar k) = true /\ rows <> [].
Proof.
  apply (@sections_well_formed AsciiOnly sample_doc sample_sections).
  reflexivity.
Defined.

(** X9: whatever the document, every row [build_rows] files is the row
    of a method of a path of the document, a method whose key is not
    null and whose metadata is a mapping: its path is that path and
    its method the upper-case text of that key; its locations hold no
    backtick, and its notes are the empty string unless they are true
    in a condition. *)
Theorem rows_well_formed (U : Unicode) (doc : dict yval)
    (sections : Sections) (k : scalar) (rows : list Row) (r : Row) :
  value (build_rows doc) = Ok sections ->
  In (k, rows) sections -> In r rows ->
  built_row doc r.
Proof.
  intros H Hin Hr. destruct (build_rows_inv doc H) as [_ Hf].
  rewrite Forall_forall in Hf. destruct (Hf _ Hin) as [_ [_ H3]].
  rewrite Forall_forall in H3. now apply H3.
Qed.

Lemma rows_well_formed_witness :
  value (build_rows (U := AsciiOnly) sample_doc) = Ok sample_sections
  /\ built_row (U := AsciiOnly) sample_doc (plain_row "/c" "TRACE").
Proof.
  split; [reflexivity|].
  apply (@rows_well_formed AsciiOnly sample_doc sample_sections
           (K "Alpha") [plain_row "/c" "TRACE"] (plain_row "/c" "TRACE")).
  - reflexivity.
  - right. right. left. reflexivity.
  - left. reflexivity.
Defined.

(* ================================================================= *)
(** ** Further properties: sorting the rows *)

Section SortedMore.
Variables (A K : Type) (key : A -> K) (lt : K -> K -> bool).

Lemma stable_sort_ordered_id (l : list A) :
  ordered key lt l -> stable_sort key lt l = l.
Proof.
  unfold ordered. induction 1 as [|x l Hs IH Hx]; [reflexivity|].
  change (stable_sort key lt (x :: l)) with (insert key lt x (stable_sort key lt l)).
  rewrite IH. destruct l as [|y l]; [reflexivity|].
  cbn [insert]. inversion Hx as [|? ? Hy _]; subst. now rewrite Hy.
Qed.

(** Two sorted arrangements of the same elements are the same list when
    no two different elements tie. *)
Lemma ordered_unique (l1 : list A) :
  (forall a b, In a l1 -> In b l1 ->
     lt (key a) (key b) = false -> lt (key b) (key a) = false -> a = b) ->
  forall l2, Permutation l1 l2 ->
    ordered key lt l1 -> ordered key lt l2 -> l1 = l2.
Proof.
  unfold ordered. induction l1 as [|x l1 IH]; intros Htie l2 Hp H1 H2.
  - apply Permutation_nil in Hp. now subst.
  - destruct l2 as [|y l2].
    { apply Permutation_sym, Permutation_nil in Hp. discriminate. }
    inversion H1 as [|? ? H1s H1x]; subst.
    inversion H2 as [|? ? H2s H2y]; subst.
    rewrite Forall_forall in H1x, H2y.
    assert (Hxy : x = y).
    { assert (Hx : In x (y :: l2)).
      { apply (Permutation_in _ Hp). now left. }
      assert (Hy : In y (x :: l1)).
      { apply (Permutation_in _ (Permutation_sym Hp)). now left. }
      destruct Hx as [Hx|Hx]; [now symmetry|].
      destruct Hy as [Hy|Hy]; [exact Hy|].
      apply Htie; [now left|now right| |].
      - now apply H2y.
      - now apply H1x. }
    subst y. f_equal. apply IH; auto.
    + intros a b Ha Hb. apply Htie; now right.
    + now apply Permutation_cons_inv in Hp.
Qed.
End SortedMore.

Section SortRowsMore.
Context {U : Unicode}.

Lemma sort_rows_ordered (rows : list Row) :
  Forall string_path rows ->
  ordered row_key key_ltb (stable_sort row_key key_ltb rows).
Proof.
  intro H. apply stable_sort_ordered with (dom := string_path);
    [exact key_ltb_asym|exact key_ltb_cotrans|exact H].
Qed.

Lemma str_key_tie (a b : Row) :
  string_path a -> string_path b ->
  key_ltb (row_key a) (row_key b) = false ->
  key_ltb (row_key b) (row_key a) = false ->
  str_key a = str_key b.
Proof.
  intros Ha Hb. rewrite !key_ltb_str_key by assumption.
  apply (st_total str_key_strict_total).
Qed.

Lemma NoDup_map_inj {A B} (f : A -> B) (l : list A) (a b : A) :
  NoDup (map f l) -> In a l -> In b l -> f a = f b -> a = b.
Proof.
  induction l as [|x l IH]; cbn; [contradiction|].
  intro Hn. inversion Hn as [|? ? Hx Hl]; subst.
  intros [<-|Ha] [<-|Hb] E; auto.
  - exfalso. apply Hx. rewrite E. now apply in_map.
  - exfalso. apply Hx. rewrite <- E. now apply in_map.
Qed.

Lemma render_section_sorted (section : scalar) (rows rows' : list Row) :
  sort_rows rows = sort_rows rows' ->
  render_section section rows = render_section section rows'.
Proof. intro H. unfold render_section. now rewrite H. Qed.
End SortRowsMore.

(** X11: sorting is idempotent on rows with string paths: the rows as
    [sorted] returns them are returned unchanged when sorted again. *)
Theorem sort_rows_idempotent (U : Unicode) (rows rows_sorted : list Row) :
  Forall string_path rows ->
  sort_rows rows = Ok rows_sorted ->
  sort_rows rows_sorted = Ok rows_sorted.
Proof.
  intros H Hs. rewrite (sort_rows_ok H) in Hs. injection Hs as <-.
  rewrite sort_rows_ok by now apply stable_sort_dom.
  f_equal. apply stable_sort_ordered_id. now apply sort_rows_ordered.
Qed.

Lemma sort_rows_idempotent_witness :
  sort_rows (U := AsciiOnly)
    [plain_row "/a" "GET"; plain_row "/a" "POST"; plain_row "/a" "TRACE";
     plain_row "/b" "GET"]
  = Ok [plain_row "/a" "GET"; plain_row "/a" "POST"; plain_row "/a" "TRACE";
        plain_row "/b" "GET"].
Proof.
  apply (@sort_rows_idempotent AsciiOnly sample_rows).
  - repeat constructor.
  - reflexivity.
Defined.

(** X12: the order in which the rows of a section arrive does not show
    in its table when no two rows have the same sort key: rows with
    string paths and pairwise different keys are sorted, and rendered,
    to the same result in whatever order they are given. *)
Theorem render_section_order_independent (U : Unicode) (section : scalar)
    (rows rows' : list Row) :
  Forall string_path rows ->
  NoDup (map str_key rows) ->
  Permutation rows rows' ->
  sort_rows rows' = sort_rows rows
  /\ render_section section rows' = render_section section rows.
Proof.
  intros H Hn Hp.
  assert (H' : Forall string_path rows').
  { rewrite Forall_forall in *. intros r Hr. apply H.
    now apply (Permutation_in _ (Permutation_sym Hp)). }
  assert (E : sort_rows rows' = sort_rows rows).
  { rewrite (sort_rows_ok H), (sort_rows_ok H'). f_equal. symmetry.
    apply ordered_unique with (key := row_key) (lt := key_ltb).
    - intros a b Ha Hb E1 E2.
      apply (Permutation_in _ (Permutation_sym (stable_sort_perm _ _ _))) in Ha.
      apply (Permutation_in _ (Permutation_sym (stable_sort_perm _ _ _))) in Hb.
      rewrite Forall_forall in H.
      apply (NoDup_map_inj str_key rows a b Hn Ha Hb).
      apply str_key_tie; auto.
    - rewrite <- (stable_sort_perm row_key key_ltb rows).
      rewrite Hp. apply stable_sort_perm.
    - now apply sort_rows_ordered.
    - now apply sort_rows_ordered. }
  split; [exact E|]. now apply render_section_sorted.
Qed.

Lemma render_section_order_independent_witness :
  sort_rows (U := AsciiOnly) (rev sample_rows)
  = sort_rows (U := AsciiOnly) sample_rows
  /\ render_section (U := AsciiOnly) (K "Alpha") (rev sample_rows)
     = render_section (U := AsciiOnly) (K "Alpha") sample_rows.
Proof.
  apply (@render_section_order_independent AsciiOnly (K "Alpha")
           sample_rows (rev sample_rows)).
  - repeat constructor.
  - vm_compute. repeat constructor; cbn; intuition discriminate.
  - apply Permutation_rev.
Defined.

(* ================================================================= *)
(** ** Further properties: what the renderer cannot render *)

Section RenderErrors.
Context {U : Unicode}.

Lemma optional_cell_cases (v : yval) :
  (cell_ok v = true -> exists c, optional_cell v = Ok c)
  /\ (cell_ok v = false -> optional_cell v = Raise AttributeError).
Proof.
  unfold cell_ok, optional_cell.
  destruct (truthy v) eqn:Et; cbn [negb orb].
  - destruct v as [[| | |s]| |]; cbn; split; intro H;
      try discriminate; eauto.
  - split; [eauto|discriminate].
Qed.

Lemma render_row_cases (r : Row) :
  (renderable r = true -> exists line, render_row r = Ok line)
  /\ (renderable r = false -> render_row r = Raise AttributeError).
Proof.
  unfold renderable, render_row.
  destruct (optional_cell_cases (owner r)) as [Ho Ho'].
  destruct (optional_cell_cases (endpoint_name r)) as [He He'].
  destruct (optional_cell_cases (backend_class r)) as [Hc Hc'].
  destruct (path r) as [| | |p]; cbn [str_or_none andb bind_r sanitize_code_span VStr];
    try (split; [discriminate|reflexivity]).
  - destruct (cell_ok (owner r));
      [destruct (Ho eq_refl) as [c1 ->]|rewrite (Ho' eq_refl)];
      cbn [andb bind_r]; [|split; [discriminate|reflexivity]].
    destruct (cell_ok (endpoint_name r));
      [destruct (He eq_refl) as [c2 ->]|rewrite (He' eq_refl)];
      cbn [andb bind_r]; [|split; [discriminate|reflexivity]].
    destruct (cell_ok (backend_class r));
      [destruct (Hc eq_refl) as [c3 ->]|rewrite (Hc' eq_refl)];
      cbn [andb bind_r]; [|split; [discriminate|reflexivity]].
    split; [eauto|discriminate].
  - destruct (cell_ok (owner r));
      [destruct (Ho eq_refl) as [c1 ->]|rewrite (Ho' eq_refl)];
      cbn [andb bind_r]; [|split; [discriminate|reflexivity]].
    destruct (cell_ok (endpoint_name r));
      [destruct (He eq_refl) as [c2 ->]|rewrite (He' eq_refl)];
      cbn [andb bind_r]; [|split; [discriminate|reflexivity]].
    destruct (cell_ok (backend_class r));
      [destruct (Hc eq_refl) as [c3 ->]|rewrite (Hc' eq_refl)];
      cbn [andb bind_r]; [|split; [discriminate|reflexivity]].
    split; [eauto|discriminate].
Qed.

Lemma render_lines_cases (rows : list Row) :
  forall lines,
    (forallb renderable rows = true ->
     exists ls,
       for_each_r
         (fun lines r => line <-r render_row r ;; Ok (lines ++ [line]))
         rows lines = Ok ls)
    /\ (forallb renderable rows = false ->
        for_each_r
          (fun lines r => line <-r render_row r ;; Ok (lines ++ [line]))
          rows lines = Raise AttributeError).
Proof.
  induction rows as [|r rows IH]; intro lines; cbn [forallb for_each_r].
  - split; [eauto|discriminate].
  - destruct (render_row_cases r) as [H1 H2].
    destruct (renderable r); cbn [andb].
    + destruct (H1 eq_refl) as [line ->]. cbn [bind_r]. apply IH.
    + rewrite (H2 eq_refl). split; [discriminate|reflexivity].
Qed.

Lemma forallb_perm {A} (f : A -> bool) (l l' : list A) :
  Permutation l l' -> forallb f l = forallb f l'.
Proof.
  induction 1; cbn; try congruence.
  - rewrite !andb_assoc. f_equal. apply andb_comm.
Qed.

Lemma py_sorted_inv {A K} (key : A -> K) (lt defined : K -> K -> bool)
    (l : list A) :
  (forall rs, py_sorted key lt defined l = Ok rs ->
              rs = stable_sort key lt l)
  /\ (forall e, py_sorted key lt defined l = Raise e -> e = TypeError).
Proof.
  unfold py_sorted. destruct (all_pairs key defined l); split;
    intros x H; congruence.
Qed.
End RenderErrors.

(** X13: for a section named by a string and rows whose notes are
    strings: when the sort of the rows raises, [render_section] raises
    [TypeError]; when the rows are sorted, it returns the table if the
    path of every row is a string or null and each of owner, endpoint
    name and class is a string or false in a condition, and it raises
    [AttributeError] if some row has a boolean or a number as path, or
    a boolean, number, sequence or mapping that is true in a condition
    as owner, endpoint name or class. *)
Theorem render_section_errors (U : Unicode) (name : pystr) (rows : list Row) :
  Forall string_notes rows ->
  (forall e, sort_rows rows = Raise e ->
             render_section (SStr name) rows = Raise TypeError)
  /\ (forall rs, sort_rows rows = Ok rs ->
        forallb renderable rows = true ->
        exists md, render_section (SStr name) rows = Ok md)
  /\ (forall rs, sort_rows rows = Ok rs ->
        forallb renderable rows = false ->
        render_section (SStr name) rows = Raise AttributeError).
Proof.
  intros _. generalize (SStr name). intro section.
  unfold render_section.
  destruct (py_sorted_inv row_key key_ltb key_lt_defined rows) as [Hok Hraise].
  fold (sort_rows rows) in Hok, Hraise.
  split; [|split].
  - intros e He. rewrite He. cbn. f_equal. now apply Hraise.
  - intros rs Hs Hr. rewrite Hs. cbn [bind_r].
    rewrite (forallb_perm renderable
               (stable_sort_perm row_key key_ltb rows)) in Hr.
    rewrite <- (Hok rs Hs) in Hr.
    destruct (render_lines_cases rs
                [lit "### " ++ str_scalar section; []; header_line;
                 delimiter_line]) as [H1 _].
    destruct (H1 Hr) as [ls ->]. cbn. eauto.
  - intros rs Hs Hr. rewrite Hs. cbn [bind_r].
    rewrite (forallb_perm renderable
               (stable_sort_perm row_key key_ltb rows)) in Hr.
    rewrite <- (Hok rs Hs) in Hr.
    destruct (render_lines_cases rs
                [lit "### " ++ str_scalar section; []; header_line;
                 delimiter_line]) as [_ H2].
    now rewrite (H2 Hr).
Qed.

Lemma render_section_errors_witness :
  sort_rows (U := AsciiOnly) [numbered_owner_row] = Ok [numbered_owner_row]
  /\ render_section (U := AsciiOnly) (SStr (lit "S")) [numbered_owner_row]
     = Raise AttributeError
  /\ exists md,
       render_section (U := AsciiOnly) (SStr (lit "S")) [plain_row "/a" "GET"]
       = Ok md.
Proof.
  split; [reflexivity|]. split.
  - destruct (@render_section_errors AsciiOnly (lit "S") [numbered_owner_row])
      as [_ [_ H]].
    + repeat constructor. exists []. reflexivity.
    + apply (H [numbered_owner_row]); reflexivity.
  - destruct (@render_section_errors AsciiOnly (lit "S") [plain_row "/a" "GET"])
      as [_ [H _]].
    + repeat constructor. exists []. reflexivity.
    + apply (H [plain_row "/a" "GET"]); reflexivity.
Defined.

(* ================================================================= *)
(** ** Further properties: how a run ends *)

Section Outcomes.
Context {U : Unicode}.

(** The run when an exception leaves it after the document is parsed. *)
Lemma main_raise_after_parse (w : World) (args : Args) (stream : pystr)
    (doc : dict yval) (e : exn) :
  read_input w args = Ok stream ->
  parse_yaml (safe_load w) stream = Ok doc ->
  value (build_rows doc) = Raise e
  \/ (exists sections, value (build_rows doc) = Ok sections
        /\ (section_order args sections = Raise e
            \/ exists names, section_order args sections = Ok names
                 /\ render_parts sections names = Raise e)) ->
  main w args = (events (build_rows doc), Raise e).
Proof.
  intros Hr Hp H. unfold main, render_and_write. rewrite Hr, Hp.
  destruct (build_rows doc) as [tr [sections|e0]]; unfold value, events in *;
    cbn [fst snd] in *.
  - destruct H as [H|[s [Hs H]]]; [discriminate|].
    injection Hs as <-. cbn [bind].
    destruct H as [H|[names [Hn H]]].
    + rewrite H. cbn. now rewrite app_nil_r.
    + rewrite Hn. cbn [lift bind]. rewrite H. cbn. now rewrite app_nil_r.
  - destruct H as [H|[s [Hs _]]]; [|discriminate].
    injection H as <-. reflexivity.
Qed.

(** Every run is one of five. *)
Lemma main_outcomes (w : World) (args : Args) :
  (exists e, read_input w args = Raise e
     /\ main w args = ([EStderr (FailedToRead (input args))], Ok 2%Z))
  \/ (exists stream e, read_input w args = Ok stream
        /\ parse_yaml (safe_load w) stream = Raise e
        /\ main w args = ([EStderr FailedToParse], Ok 3%Z))
  \/ (exists stream doc tr e,
        read_input w args = Ok stream
        /\ parse_yaml (safe_load w) stream = Ok doc
        /\ written tr = []
        /\ main w args = (tr, Raise e))
  \/ (exists tr parts, written tr = []
        /\ write_result w args (output_text parts) = Ok tt
        /\ main w args
           = (tr ++ [EWrite (output args) (output_text parts)], Ok 0%Z))
  \/ (exists tr parts e, written tr = []
        /\ write_result w args (output_text parts) = Raise e
        /\ main w args
           = (tr ++ [EWrite (output args) (output_text parts);
                     EStderr (FailedToWrite (output args))], Ok 4%Z)).
Proof.
  destruct (read_input w args) as [stream|e0] eqn:Hr.
  2:{ left. exists e0. split; [reflexivity|]. unfold main. now rewrite Hr. }
  destruct (parse_yaml (safe_load w) stream) as [doc|e1] eqn:Hp.
  2:{ right. left. exists stream, e1. split; [reflexivity|].
      split; [exact Hp|]. unfold main. now rewrite Hr, Hp. }
  right. right.
  pose proof (build_rows_written doc) as Hw.
  destruct (value (build_rows doc)) as [sections|e2] eqn:Hb.
  2:{ left. exists stream, doc, (events (build_rows doc)), e2.
      split; [reflexivity|]. split; [exact Hp|]. split; [exact Hw|].
      eapply main_raise_after_parse; eauto. }
  destruct (section_order args sections) as [names|e3] eqn:Hs.
  2:{ left. exists stream, doc, (events (build_rows doc)), e3.
      split; [reflexivity|]. split; [exact Hp|]. split; [exact Hw|].
      eapply main_raise_after_parse; eauto. }
  destruct (render_parts sections names) as [parts|e4] eqn:Hrp.
  2:{ left. exists stream, doc, (events (build_rows doc)), e4.
      split; [reflexivity|]. split; [exact Hp|]. split; [exact Hw|].
      eapply main_raise_after_parse; eauto.
      right. exists sections. split; [exact Hb|]. right. exists names. auto. }
  right.
  assert (Hbr : build_rows doc = (events (build_rows doc), Ok sections)).
  { destruct (build_rows doc) as [tr r]. unfold value, events in *.
    cbn [fst snd] in *. now subst r. }
  pose proof (main_after_render w args Hr Hp Hbr Hs Hrp) as Hm.
  destruct (write_result w args (output_text parts)) as [[]|e5] eqn:Hwr.
  - left. exists (events (build_rows doc)), parts.
    split; [exact Hw|]. split; [exact Hwr|]. exact Hm.
  - right. exists (events (build_rows doc)), parts, e5.
    split; [exact Hw|]. split; [exact Hwr|]. exact Hm.
Qed.
End Outcomes.

(** X14: the status [main] returns tells what happened: 2 only when the
    input could not be read, 3 only when it was read and could not be
    parsed, 0 only when one text was handed to the output and the write
    succeeded, 4 only when one text was handed to the output, the write
    failed and the failure was reported on standard error; it returns
    no other status. *)
Theorem main_status_meaning (U : Unicode) (w : World) (args : Args) (c : Z) :
  value (main w args) = Ok c ->
  (c = 2%Z /\ exists e, read_input w args = Raise e)
  \/ (c = 3%Z /\ exists stream e,
        read_input w args = Ok stream
        /\ parse_yaml (safe_load w) stream = Raise e)
  \/ (c = 0%Z /\ exists text,
        written (events (main w args)) = [text]
        /\ write_result w args text = Ok tt)
  \/ (c = 4%Z /\ exists text e,
        written (events (main w args)) = [text]
        /\ write_result w args text = Raise e
        /\ In (FailedToWrite (output args)) (stderr (events (main w args)))).
Proof.
  intro Hc.
  destruct (main_outcomes w args)
    as [[e [Hr Hm]]|[[stream [e [Hr [Hp Hm]]]]|[[stream [doc [tr [e [Hr [Hp [Hw Hm]]]]]]]
       |[[tr [parts [Hw [Hwr Hm]]]]|[tr [parts [e [Hw [Hwr Hm]]]]]]]]];
    rewrite Hm in *; unfold value, events in *; cbn [fst snd] in *.
  - injection Hc as <-. left. eauto.
  - injection Hc as <-. right. left. eauto.
  - discriminate.
  - injection Hc as <-. right. right. left. split; [reflexivity|].
    exists (output_text parts). rewrite written_app, Hw. auto.
  - injection Hc as <-. right. right. right. split; [reflexivity|].
    exists (output_text parts), e. rewrite written_app, Hw.
    split; [reflexivity|]. split; [exact Hwr|].
    rewrite stderr_app. apply in_or_app. right. cbn. now left.
Qed.

Lemma main_status_meaning_witness :
  exists text,
    written (events (main (U := AsciiOnly) (world_of (Map sample_doc))
                       (stdio true))) = [text]
    /\ write_result (world_of (Map sample_doc)) (stdio true) text = Ok tt.
Proof.
  destruct (@main_status_meaning AsciiOnly (world_of (Map sample_doc))
              (stdio true) 0%Z)
    as [[H _]|[[H _]|[[_ H]|[H _]]]];
    [vm_compute; reflexivity|discriminate|discriminate|exact H|discriminate].
Defined.

(** X15: a failure to read, to parse or to write never leaves [main]
    as an exception: a run that ends with an exception has read its
    input and parsed it to a mapping, and it has handed nothing to the
    output. *)
Theorem main_exceptions (U : Unicode) (w : World) (args : Args) (e : exn) :
  value (main w args) = Raise e ->
  (exists stream doc,
      read_input w args = Ok stream
      /\ parse_yaml (safe_load w) stream = Ok doc)
  /\ written (events (main w args)) = [].
Proof.
  intro He.
  destruct (main_outcomes w args)
    as [[e0 [Hr Hm]]|[[stream [e0 [Hr [Hp Hm]]]]
       |[[stream0 [doc [tr [e0 [Hr0 [Hp0 [Hw Hm]]]]]]]
       |[[tr [parts [Hw [Hwr Hm]]]]|[tr [parts [e0 [Hw [Hwr Hm]]]]]]]]];
    rewrite Hm in *; unfold value, events in *; cbn [fst snd] in *;
    try discriminate.
  split; [|exact Hw]. exists stream0, doc. auto.
Qed.

Lemma main_exceptions_witness :
  value (main (U := AsciiOnly) (world_of (Map mixed_sections_doc))
           (stdio true)) = Raise TypeError
  /\ written (events (main (U := AsciiOnly)
                        (world_of (Map mixed_sections_doc)) (stdio true)))
     = [].
Proof.
  split; [reflexivity|].
  apply (@main_exceptions AsciiOnly (world_of (Map mixed_sections_doc))
           (stdio true) TypeError).
  reflexivity.
Defined.

(** X16: a run hands at most one text to the output, and a text it
    hands over ends with a newline. *)
Theorem main_writes (U : Unicode) (w : World) (args : Args) :
  (List.length (written (events (main w args))) <= 1)%nat
  /\ forall text, In text (written (events (main w args))) ->
                  exists body, text = body ++ newline.
Proof.
  destruct (main_outcomes w args)
    as [[e0 [Hr Hm]]|[[stream [e0 [Hr [Hp Hm]]]]|[[stream0 [doc [tr [e0 [Hr0 [Hp0 [Hw Hm]]]]]]]
       |[[tr [parts [Hw [Hwr Hm]]]]|[tr [parts [e0 [Hw [Hwr Hm]]]]]]]]];
    rewrite Hm; unfold events; cbn [fst];
    rewrite ?written_app, ?Hw; cbn; (split; [lia|]);
    try (now intros text []).
  - intros text [<-|[]]. unfold output_text. eauto.
  - intros text [<-|[]]. unfold output_text. eauto.
Qed.

(* ================================================================= *)
(** ** Further properties: the flag, concatenation, bare documents *)

Section Composition.
Context {U : Unicode}.



Lemma for_each_no_methods (doc : dict yval) :
  Forall (fun item : scalar * yval => no_methods (snd item) = true) doc ->
  forall s, for_each build_path doc s = ret s.
Proof.
  induction 1 as [|[path meta] doc Hm Hd IH]; intro s; [reflexivity|].
  cbn [for_each]. rewrite (build_path_no_methods s path meta Hm).
  rewrite bind_ret_l. apply IH.
Qed.

Lemma valid_document_app (d1 d2 : dict yval) :
  valid_document (d1 ++ d2) = valid_document d1 && valid_document d2.
Proof. unfold valid_document. apply forallb_app. Qed.
End Composition.



(** X18: for two valid documents that share no path, so that the one
    followed by the other is a document, the sections of the whole are
    the sections of the first followed, name by name, by those of the
    second: under every name the rows of the first document come
    first, then the rows of the second. *)
Theorem build_rows_concat (U : Unicode) (d1 d2 : dict yval) :
  distinct_keys (d1 ++ d2) ->
  valid_document d1 = true -> valid_document d2 = true ->
  exists s1 s2 s,
    value (build_rows d1) = Ok s1
    /\ value (build_rows d2) = Ok s2
    /\ value (build_rows (d1 ++ d2)) = Ok s
    /\ (forall k, rows_in s k = rows_in s1 k ++ rows_in s2 k)
    /\ row_count s = (row_count s1 + row_count s2)%nat.
Proof.
  intros _ H1 H2.
  assert (H12 : valid_document (d1 ++ d2) = true).
  { rewrite valid_document_app, H1, H2. reflexivity. }
  exists (group (keyed (document_pairs d1)) []),
         (group (keyed (document_pairs d2)) []),
         (group (keyed (document_pairs (d1 ++ d2))) []).
  split; [now apply build_rows_value|].
  split; [now apply build_rows_value|].
  split; [now apply build_rows_value|].
  assert (E : keyed (document_pairs (d1 ++ d2))
              = keyed (document_pairs d1) ++ keyed (document_pairs d2)).
  { unfold document_pairs, keyed. now rewrite flat_map_app, map_app. }
  split.
  - intro k. rewrite !group_rows_in, E. cbn [rows_in dict_find app].
    now rewrite filter_app, map_app.
  - rewrite !group_row_count, E, length_app. cbn. lia.
Qed.

Lemma build_rows_concat_witness :
  exists s1 s2 s,
    value (build_rows (U := AsciiOnly) sample_doc) = Ok s1
    /\ value (build_rows (U := AsciiOnly) disjoint_doc) = Ok s2
    /\ value (build_rows (U := AsciiOnly) (sample_doc ++ disjoint_doc))
       = Ok s
    /\ row_count s = (row_count s1 + row_count s2)%nat.
Proof.
  assert (Hd : distinct_keys (sample_doc ++ disjoint_doc)).
  { unfold distinct_keys. vm_compute. repeat constructor. }
  destruct (@build_rows_concat AsciiOnly sample_doc disjoint_doc Hd
              eq_refl eq_refl) as [s1 [s2 [s [H1 [H2 [H3 [_ H4]]]]]]].
  exists s1, s2, s. auto.
Defined.

(** X19: a document none of whose paths has methods (metadata that is
    no mapping, [methods] absent or false in a condition) is treated
    as the empty document: nothing is printed, and the text handed to
    the output is one newline. *)
Theorem document_without_methods (U : Unicode) (w : World) (args : Args)
    (stream : pystr) (doc : dict yval) :
  Forall (fun item : scalar * yval => no_methods (snd item) = true) doc ->
  read_input w args = Ok stream ->
  safe_load w stream = Ok (Map doc) ->
  build_rows doc = ([], Ok [])
  /\ stderr (events (main w args))
     = match write_result w args newline with
       | Ok _ => []
       | Raise _ => [FailedToWrite (output args)]
       end
  /\ written (events (main w args)) = [newline].
Proof.
  intros Hd Hr Hl.
  assert (Hb : build_rows doc = ([], Ok [])).
  { unfold build_rows. now rewrite for_each_no_methods. }
  assert (Hp : parse_yaml (safe_load w) stream = Ok doc).
  { unfold parse_yaml. now rewrite Hl. }
  assert (Hs : section_order args [] = Ok []).
  { unfold section_order. now destruct (no_sort args). }
  split; [exact Hb|].
  rewrite (@main_after_render U w args stream doc [] [] [] [] Hr Hp Hb Hs
             eq_refl).
  change (output_text []) with newline. unfold events. cbn [fst app].
  destruct (write_result w args newline); split; reflexivity.
Qed.

Lemma document_without_methods_witness :
  build_rows (U := AsciiOnly) bare_doc = ([], Ok [])
  /\ written (events (main (U := AsciiOnly) (world_of (Map bare_doc))
                        (stdio true)))
     = [newline].
Proof.
  destruct (@document_without_methods AsciiOnly (world_of (Map bare_doc))
              (stdio true) [] bare_doc) as [H1 [_ H2]];
    [repeat constructor|reflexivity|reflexivity|auto].
Defined.
